(** * salesByExpansion.js: navigation, key decoding and sales aggregation

    A shallow embedding of the interactive sales browser of
    [src/salesByExpansion.js].  The script keeps its user-interface state in
    seven captured [let] variables, mutates them from [handleInput] and from
    the two list renderers, and computes the per-expansion sales figures in
    [renderResults].  Here the captured variables become one record that is
    passed explicitly, [process.exit] becomes an outcome, and the loops of
    [renderResults] become folds over lists.

    Conventions.
    - JavaScript integers are [Z]; array indices are [Z] too, because the
      script can index with a negative cursor.
    - Strings are [string] (8-bit characters).  [toLowerCase] is the
      platform's and stays a parameter, [JS.CaseFold]: all that is
      assumed is what it does to ASCII text and that it empties no text.
    - Painting (the ANSI writes) is left out: only what the renderers
      assign to [cursor] and [scrollOffset] is kept. *)

From Stdlib Require Import ZArith List String Ascii Bool Lia.
From Stdlib Require Import Permutation Sorted.
Import ListNotations.
Open Scope Z_scope.

(** ** JavaScript string and array primitives used by the script *)

Module JS.

(** The letters A-Z to a-z, every other character as it is. *)
Definition lower_ascii (c : ascii) : ascii :=
  if (Ascii.leb "A" c && Ascii.leb c "Z")%bool
  then ascii_of_nat (nat_of_ascii c + 32)
  else c.

Fixpoint lowerAscii (s : string) : string :=
  match s with
  | EmptyString => EmptyString
  | String c r => String (lower_ascii c) (lowerAscii r)
  end.

(** Every character of [s] is an ASCII character (below 128). *)
Fixpoint isAscii (s : string) : bool :=
  match s with
  | EmptyString => true
  | String c r => (Ascii.leb c "127" && isAscii r)%bool
  end.

(** [s.toLowerCase()].  The method follows the Unicode case mappings:
    it changes letters well beyond A-Z and looks at the neighbours of a
    character (a capital sigma becomes a final sigma at the end of a
    word), so it is no character-by-character map and the lower case of
    [a ++ b] need not begin with the lower case of [a].  The embedding
    therefore takes the method as it comes, and relies on two facts
    only: on ASCII text it turns A-Z into a-z and nothing else, and it
    never turns text into the empty string. *)
Record CaseFold := {
  toLowerCase : string -> string;
  toLowerCase_ascii :
    forall s, isAscii s = true -> toLowerCase s = lowerAscii s;
  toLowerCase_nonempty :
    forall s, toLowerCase s = EmptyString -> s = EmptyString
}.

(** The fold that touches A-Z only.  The method agrees with it on ASCII
    text, which is all the sample data below consists of. *)
Definition asciiFold : CaseFold :=
  {| toLowerCase := lowerAscii;
     toLowerCase_ascii := fun _ _ => eq_refl;
     toLowerCase_nonempty :=
       ltac:(intros [|c r] H; [reflexivity|discriminate H]) |}.

(** [s.startsWith(p)] *)
Definition startsWith (s p : string) : bool := String.prefix p s.

(** [s.includes(t)]: [t] occurs in [s] as a contiguous substring. *)
Fixpoint includes (s t : string) : bool :=
  match s with
  | EmptyString => String.prefix t EmptyString
  | String _ r => (String.prefix t s || includes r t)%bool
  end.

(** [s.slice(0, -1)]: all characters but the last. *)
Fixpoint slice_0_m1 (s : string) : string :=
  match s with
  | EmptyString => EmptyString
  | String c EmptyString => EmptyString
  | String c r => String c (slice_0_m1 r)
  end.

(** [s.length] *)
Definition length (s : string) : Z := Z.of_nat (String.length s).

(** [a.length] for arrays *)
Definition alength {A} (l : list A) : Z := Z.of_nat (List.length l).

(** [a[i]]: [undefined] (here [None]) outside [0 .. a.length-1]. *)
Definition index {A} (l : list A) (i : Z) : option A :=
  if i <? 0 then None else nth_error l (Z.to_nat i).

(** A [Set] of numbers.  A JavaScript [Set] iterates in insertion order,
    so it is kept as a duplicate-free list, oldest member first. *)
Definition Set_has (m : list Z) (x : Z) : bool := existsb (Z.eqb x) m.
Definition Set_add (m : list Z) (x : Z) : list Z :=
  if Set_has m x then m else m ++ [x].
Definition Set_delete (m : list Z) (x : Z) : list Z :=
  filter (fun y => negb (y =? x)) m.
Definition Set_size (m : list Z) : Z := alength m.

(** [Array.prototype.sort(cmp)].  ECMAScript (2019 on) requires the sort
    to be stable; this is the stable insertion sort: an element goes in
    front of the first later element it does not compare greater than. *)
Fixpoint sort_insert {A} (cmp : A -> A -> Z) (x : A) (l : list A) : list A :=
  match l with
  | [] => [x]
  | y :: r => if cmp x y <=? 0 then x :: y :: r else y :: sort_insert cmp x r
  end.

Fixpoint sort {A} (cmp : A -> A -> Z) (l : list A) : list A :=
  match l with
  | [] => []
  | x :: r => sort_insert cmp x (sort cmp r)
  end.

(** [a.slice(0, n)] for [0 <= n]. *)
Definition slice_0 {A} (n : nat) (l : list A) : list A := firstn n l.

End JS.

(** ** Reference data (lines 69-91) *)

Record Game := { g_id : Z; g_name : string }.

(** An expansion as the script reads it: [id], [game_id], [name]. *)
Record Expansion := { e_id : Z; e_game_id : Z; e_name : string }.

(** What the script captures from its surroundings: the reference data
    and the platform's [toLowerCase]. *)
Record Env := {
  games : list Game;
  expansions : list Expansion;
  caseFold : JS.CaseFold
}.

(** ** TUI state (lines 121-130) *)

Inductive Screen := GameSelect | ExpansionSelect | Results.

Definition Screen_eqb (a b : Screen) : bool :=
  match a, b with
  | GameSelect, GameSelect | ExpansionSelect, ExpansionSelect
  | Results, Results => true
  | _, _ => false
  end.

Record TuiState := {
  state : Screen;
  selectedGameId : option Z;          (* [null] until a game is chosen *)
  cursor : Z;
  scrollOffset : Z;
  filterMode : bool;
  filterText : string;
  markedExpansions : list Z           (* the [Set] of expansion ids *)
}.

Definition initial : TuiState :=
  {| state := GameSelect; selectedGameId := None; cursor := 0;
     scrollOffset := 0; filterMode := false; filterText := "";
     markedExpansions := [] |}.

Definition set_state (v : Screen) (s : TuiState) : TuiState :=
  {| state := v; selectedGameId := selectedGameId s; cursor := cursor s;
     scrollOffset := scrollOffset s; filterMode := filterMode s;
     filterText := filterText s; markedExpansions := markedExpansions s |}.
Definition set_selectedGameId (v : option Z) (s : TuiState) : TuiState :=
  {| state := state s; selectedGameId := v; cursor := cursor s;
     scrollOffset := scrollOffset s; filterMode := filterMode s;
     filterText := filterText s; markedExpansions := markedExpansions s |}.
Definition set_cursor (v : Z) (s : TuiState) : TuiState :=
  {| state := state s; selectedGameId := selectedGameId s; cursor := v;
     scrollOffset := scrollOffset s; filterMode := filterMode s;
     filterText := filterText s; markedExpansions := markedExpansions s |}.
Definition set_scrollOffset (v : Z) (s : TuiState) : TuiState :=
  {| state := state s; selectedGameId := selectedGameId s; cursor := cursor s;
     scrollOffset := v; filterMode := filterMode s;
     filterText := filterText s; markedExpansions := markedExpansions s |}.
Definition set_filterMode (v : bool) (s : TuiState) : TuiState :=
  {| state := state s; selectedGameId := selectedGameId s; cursor := cursor s;
     scrollOffset := scrollOffset s; filterMode := v;
     filterText := filterText s; markedExpansions := markedExpansions s |}.
Definition set_filterText (v : string) (s : TuiState) : TuiState :=
  {| state := state s; selectedGameId := selectedGameId s; cursor := cursor s;
     scrollOffset := scrollOffset s; filterMode := filterMode s;
     filterText := v; markedExpansions := markedExpansions s |}.
Definition set_markedExpansions (v : list Z) (s : TuiState) : TuiState :=
  {| state := state s; selectedGameId := selectedGameId s; cursor := cursor s;
     scrollOffset := scrollOffset s; filterMode := filterMode s;
     filterText := filterText s; markedExpansions := v |}.

(** [process.stdout.rows - 6] (line 130); [rows] is whatever the terminal
    reports when the renderer runs. *)
Definition getVisibleRows (rows : Z) : Z := rows - 6.

(** ** The filtered lists (lines 136-138, 176-179, 312-314) *)

Definition nameMatches (lc : JS.CaseFold) (filter name : string) : bool :=
  JS.includes (JS.toLowerCase lc name) (JS.toLowerCase lc filter).

Definition inGame (sel : option Z) (e : Expansion) : bool :=
  match sel with
  | Some g => e_game_id e =? g
  | None => false
  end.

Definition gameExpansions (env : Env) (s : TuiState) : list Expansion :=
  filter (inGame (selectedGameId s)) (expansions env).

Definition filteredGames (env : Env) (s : TuiState) : list Game :=
  filter (fun g => nameMatches (caseFold env) (filterText s) (g_name g))
    (games env).

Definition filteredExps (env : Env) (s : TuiState) : list Expansion :=
  filter (fun e => nameMatches (caseFold env) (filterText s) (e_name e))
    (gameExpansions env s).

(** ** Renderers: what they assign (lines 145-151 and 186-192) *)

(** The three guarded assignments shared verbatim by both list renderers,
    run only when the filtered list is not empty. *)
Definition adjustViewport (len visibleRows : Z) (s : TuiState) : TuiState :=
  if len =? 0 then s
  else
    let s1 := if cursor s >=? len
              then set_cursor (Z.max 0 (len - 1)) s else s in
    let s2 := if cursor s1 <? scrollOffset s1
              then set_scrollOffset (cursor s1) s1 else s1 in
    if cursor s2 >=? scrollOffset s2 + visibleRows
    then set_scrollOffset (cursor s2 - visibleRows + 1) s2 else s2.

Definition renderGameSelect (env : Env) (rows : Z) (s : TuiState)
  : TuiState :=
  adjustViewport (JS.alength (filteredGames env s)) (getVisibleRows rows) s.

Definition renderExpansionSelect (env : Env) (rows : Z) (s : TuiState)
  : TuiState :=
  adjustViewport (JS.alength (filteredExps env s)) (getVisibleRows rows) s.

(** [render] (lines 305-308): nothing is painted on the results screen. *)
Definition render (env : Env) (rows : Z) (s : TuiState) : TuiState :=
  match state s with
  | GameSelect => renderGameSelect env rows s
  | ExpansionSelect => renderExpansionSelect env rows s
  | Results => s
  end.

(** ** Key names *)

Definition ESC : string := String "027" EmptyString.
Definition CR : string := String "013" EmptyString.
Definition DEL : string := String "127" EmptyString.
Definition BS : string := String "008" EmptyString.
Definition UP : string := String "027" "[A".
Definition DOWN : string := String "027" "[B".

(** ** Sales aggregation: [renderResults] (lines 214-303) *)

Module Sales.

(** An order item as [renderResults] reads it.  Every field may be
    absent ([undefined] or [null], here [None]); a field that is present
    holds a string or an integer as the orders API delivers it.
    [price_x100] stands for the floating-point fallback: it is [Some c]
    when [typeof item.price === 'number'], [c] being what
    [Math.round(item.price * 100)] evaluates to, and [None] otherwise. *)
Record OrderItem := {
  expansion : option string;
  quantity : option Z;
  seller_price_cents : option Z;    (* [item.seller_price?.cents] *)
  price_cents : option Z;
  price_x100 : option Z;
  name : option string;
  blueprint_name : option string    (* [item.blueprint?.name] *)
}.

(** The value of [order.order_items] or [order.items]. *)
Inductive ItemsField :=
| Falsy                        (* absent, [null] or another falsy value *)
| AnArray (l : list OrderItem)
| NotAnArray.                  (* a truthy value that is no array *)

Record Order := { order_items : ItemsField; items : ItemsField }.

(** [a ?? b] *)
Definition nullish {A} (a : option A) (b : A) : A :=
  match a with Some v => v | None => b end.

(** [a || b] on strings: the empty string is falsy. *)
Definition orString (a : option string) (b : string) : string :=
  match a with
  | Some EmptyString | None => b
  | Some v => v
  end.

(** Lines 237-238: [None] is the [continue]. *)
Definition orderLines (o : Order) : option (list OrderItem) :=
  let items :=
    match order_items o with
    | Falsy => match items o with Falsy => AnArray [] | v => v end
    | v => v
    end in
  match items with
  | AnArray l => Some l
  | _ => None
  end.

(** Line 241 *)
Definition itemExpName (lc : JS.CaseFold) (item : OrderItem) : string :=
  JS.toLowerCase lc (orString (expansion item) "").

(** Line 243 *)
Definition qtyOf (item : OrderItem) : Z := nullish (quantity item) 1.

(** Lines 244-246 *)
Definition priceCentsOf (item : OrderItem) : Z :=
  nullish (seller_price_cents item)
    (nullish (price_cents item)
       (match price_x100 item with Some c => c | None => 0 end)).

(** Line 250 *)
Definition nameOf (item : OrderItem) : string :=
  orString (name item)
    (orString (blueprint_name item) "Unknown").

Record Tally := { qty : Z; cents : Z }.

(** A [Map] from card name to tally.  Iteration follows insertion order
    and [set] on a present key keeps its place. *)
Definition Breakdown := list (string * Tally).

Fixpoint Map_get (m : Breakdown) (k : string) : option Tally :=
  match m with
  | [] => None
  | (k', v) :: r => if (k' =? k)%string then Some v else Map_get r k
  end.

Fixpoint Map_set (m : Breakdown) (k : string) (v : Tally) : Breakdown :=
  match m with
  | [] => [(k, v)]
  | (k', v') :: r =>
      if (k' =? k)%string then (k', v) :: r else (k', v') :: Map_set r k v
  end.

Record Acc := {
  totalCents : Z;
  totalQty : Z;
  cardBreakdown : Breakdown
}.

Definition acc0 : Acc :=
  {| totalCents := 0; totalQty := 0; cardBreakdown := [] |}.

(** Lines 240-253: the body of the inner loop. *)
Definition scanItem (lc : JS.CaseFold) (expName : string) (a : Acc)
  (item : OrderItem) : Acc :=
  if (itemExpName lc item =? expName)%string then
    let qty_ := qtyOf item in
    let priceCents := priceCentsOf item in
    let name_ := nameOf item in
    let prev := match Map_get (cardBreakdown a) name_ with
                | Some t => t
                | None => {| qty := 0; cents := 0 |}
                end in
    {| totalCents := totalCents a + priceCents * qty_;
       totalQty := totalQty a + qty_;
       cardBreakdown :=
         Map_set (cardBreakdown a) name_
           {| qty := qty prev + qty_;
              cents := cents prev + priceCents * qty_ |} |}
  else a.

(** Lines 236-255: the body of the outer loop. *)
Definition scanOrder (lc : JS.CaseFold) (expName : string) (a : Acc)
  (order : Order) : Acc :=
  match orderLines order with
  | None => a
  | Some l => fold_left (scanItem lc expName) l a
  end.

Definition scan (lc : JS.CaseFold) (expName : string) (orders : list Order)
  : Acc :=
  fold_left (scanOrder lc expName) orders acc0.

Record Result := {
  r_id : Z;
  r_name : string;
  r_totalCents : Z;
  r_totalQty : Z;
  r_cardBreakdown : Breakdown
}.

(** Line 230 *)
Definition findExpansion (exps : list Expansion) (expId : Z)
  : option Expansion :=
  find (fun e => e_id e =? expId) exps.

(** Lines 229-264: one iteration of the loop over the marked ids;
    [expansions] is the captured array. *)
Definition resultFor (env : Env) (orders : list Order) (expId : Z)
  : Result :=
  let exp := findExpansion (expansions env) expId in
  let expName := match exp with
                 | Some e => JS.toLowerCase (caseFold env) (e_name e)
                 | None => EmptyString
                 end in
  let a := scan (caseFold env) expName orders in
  {| r_id := expId;
     r_name := orString (option_map e_name exp) "Unknown";
     r_totalCents := totalCents a;
     r_totalQty := totalQty a;
     r_cardBreakdown := cardBreakdown a |}.

Definition results (env : Env) (orders : list Order)
  (marked : list Z) : list Result :=
  map (resultFor env orders) marked.

(** Line 286: the comparator [(a, b) => b[1].cents - a[1].cents]. *)
Definition byCentsDesc (a b : string * Tally) : Z :=
  cents (snd b) - cents (snd a).

(** Lines 285-291: the rows printed under an expansion. *)
Definition top5 (r : Result) : list (string * Tally) :=
  if JS.alength (r_cardBreakdown r) >? 0
  then JS.slice_0 5 (JS.sort byCentsDesc (r_cardBreakdown r))
  else [].

(** Lines 273-278 *)
Definition grandTotal (rs : list Result) : Z * Z :=
  fold_left (fun g r => (fst g + r_totalCents r, snd g + r_totalQty r))
    rs (0, 0).

End Sales.

(** ** Fetching all orders (lines 94-119)

    The loop asks for page 1, 2, ... until a page is short.  What the
    server answers for a page is the parameter [fetch]; the loop has no
    bound of its own, so the embedding counts iterations with [fuel]. *)

Module Orders.

Inductive Response :=
| NotOk                                 (* [!res.ok] *)
| Json (data : option (list Sales.Order)).
                                        (* the body; [None]: not an array *)

Inductive Outcome :=
| Exit1                                 (* [process.exit(1)] *)
| Fetched (orders : list Sales.Order) (written : bool)
                                        (* returned; [written]: cache file
                                           rewritten by [writeJson] *)
| StillFetching.                        (* [fuel] iterations were not enough *)

(** [data.length === PAGE_LIMIT]; [PAGE_LIMIT] is [None] when [parseInt]
    gave [NaN]. *)
Definition hasMore (PAGE_LIMIT : option Z) (data : list Sales.Order) : bool :=
  match PAGE_LIMIT with
  | Some n => JS.alength data =? n
  | None => false
  end.

(** The [while (hasMore)] loop (lines 104-116) about to ask for [page],
    with the orders collected so far. *)
Fixpoint fetchPages (fetch : Z -> Response) (PAGE_LIMIT : option Z)
  (fuel : nat) (page : Z) (orders : list Sales.Order) : Outcome :=
  match fuel with
  | O => StillFetching
  | S fuel' =>
      match fetch page with
      | NotOk => Exit1
      | Json None => Fetched orders true
      | Json (Some data) =>
          if JS.alength data =? 0 then Fetched orders true
          else if hasMore PAGE_LIMIT data
          then fetchPages fetch PAGE_LIMIT fuel' (page + 1) (orders ++ data)
          else Fetched (orders ++ data) true
      end
  end.

(** [cache] is what [readJsonIfFresh] returned, [None] unless it is a
    fresh array. *)
Definition fetchAllOrders (cache : option (list Sales.Order))
  (fetch : Z -> Response) (PAGE_LIMIT : option Z) (fuel : nat) : Outcome :=
  match cache with
  | Some orders => Fetched orders false
  | None => fetchPages fetch PAGE_LIMIT fuel 1 []
  end.

(** [pages] are what the server answers, in a row, from page [p] on,
    and each of them is full. *)
Definition fullPagesFrom (fetch : Z -> Response) (PAGE_LIMIT : option Z)
  (p : Z) (pages : list (list Sales.Order)) : Prop :=
  forall i data, nth_error pages i = Some data ->
    fetch (p + Z.of_nat i) = Json (Some data) /\
    data <> [] /\ hasMore PAGE_LIMIT data = true.

(** A page that ends the loop normally: no array, or an array that is
    empty or not full. *)
Definition endsLoop (PAGE_LIMIT : option Z) (r : Response) : Prop :=
  match r with
  | NotOk => True
  | Json None => True
  | Json (Some d) => d = [] \/ hasMore PAGE_LIMIT d = false
  end.

End Orders.

(** ** [handleInput] (lines 311-415)

    The function is [async] and one of its paths waits: Enter on the
    expansion list with something marked assigns [state] and then awaits
    [renderResults] (line 411), which awaits [fetchAllOrders] (line 219).
    How that ends is the argument [fetched] of the embedding:
    - [Orders.Exit1]: a request failed and line 110 ended the process
      with status 1;
    - [Orders.Fetched]: the orders came back and the results were
      painted;
    - [Orders.StillFetching]: the requests go on and the call does not
      return.
    All assignments to the TUI variables are made before the [await], so
    [after] holds the variables as they are from then on, also for the
    keys that are handled while the call still waits; the keys handled
    between such an Enter and the failure of its request find the state
    that [Orders.StillFetching] gives. *)

Inductive Effect :=
| ShowCursor            (* [showCursor()] *)
| ProcessExit (code : Z) (* [process.exit(code)] *)
| Render                (* [render()] *)
| RenderResults.        (* [renderResults()] got its orders and painted *)

(** [after = None] once [process.exit] was called. *)
Record Outcome := { after : option TuiState; effects : list Effect }.

Definition exits : Outcome :=
  {| after := None; effects := [ShowCursor; ProcessExit 0] |}.
Definition requestFailed : Outcome :=
  {| after := None; effects := [ProcessExit 1] |}.
Definition rendered (env : Env) (rows : Z) (s : TuiState) : Outcome :=
  {| after := Some (render env rows s); effects := [Render] |}.
Definition ignored (s : TuiState) : Outcome :=
  {| after := Some s; effects := [] |}.

Definition handleInput (env : Env) (rows : Z) (fetched : Orders.Outcome)
  (key : string) (s : TuiState) : Outcome :=
  let filteredGames := filteredGames env s in
  let filteredExps := filteredExps env s in
  if Screen_eqb (state s) Results then                      (* 316-324 *)
    if (key =? "q")%string then exits
    else rendered env rows (set_state ExpansionSelect s)
  else if filterMode s then                                 (* 327-348 *)
    if ((key =? ESC) || (key =? CR))%string then
      rendered env rows (set_filterMode false s)
    else if ((key =? DEL) || (key =? BS))%string then
      rendered env rows
        (set_scrollOffset 0 (set_cursor 0
           (set_filterText (JS.slice_0_m1 (filterText s)) s)))
    else if ((JS.length key =? 1) && (" " <=? key)%string)%bool then
      rendered env rows
        (set_scrollOffset 0 (set_cursor 0
           (set_filterText (filterText s ++ key) s)))
    else ignored s
  else if (key =? "q")%string then exits                    (* 351-354 *)
  else if (key =? "/")%string then                          (* 356-361 *)
    rendered env rows (set_filterText "" (set_filterMode true s))
  else if ((key =? UP) || (key =? "k"))%string then         (* 364-368 *)
    rendered env rows (set_cursor (Z.max 0 (cursor s - 1)) s)
  else if ((key =? DOWN) || (key =? "j"))%string then       (* 369-374 *)
    let maxIdx := if Screen_eqb (state s) GameSelect
                  then JS.alength filteredGames - 1
                  else JS.alength filteredExps - 1 in
    rendered env rows (set_cursor (Z.min maxIdx (cursor s + 1)) s)
  else if ((key =? ESC)%string
           && Screen_eqb (state s) ExpansionSelect)%bool then (* 376-384 *)
    rendered env rows
      (set_markedExpansions [] (set_filterText "" (set_scrollOffset 0
         (set_cursor 0 (set_state GameSelect s)))))
  else if ((key =? " ")%string
           && Screen_eqb (state s) ExpansionSelect)%bool then (* 386-394 *)
    match JS.index filteredExps (cursor s) with
    | Some exp =>
        if JS.Set_has (markedExpansions s) (e_id exp)
        then rendered env rows
               (set_markedExpansions
                  (JS.Set_delete (markedExpansions s) (e_id exp)) s)
        else rendered env rows
               (set_markedExpansions
                  (JS.Set_add (markedExpansions s) (e_id exp)) s)
    | None => rendered env rows s
    end
  else if (key =? CR)%string then                           (* 396-414 *)
    if Screen_eqb (state s) GameSelect then
      match JS.index filteredGames (cursor s) with
      | Some game =>
          rendered env rows
            (set_filterText "" (set_scrollOffset 0 (set_cursor 0
               (set_state ExpansionSelect
                  (set_selectedGameId (Some (g_id game)) s)))))
      | None => ignored s
      end
    else if (Screen_eqb (state s) ExpansionSelect
             && (JS.Set_size (markedExpansions s) >? 0))%bool then
      match fetched with                                    (* 410-412 *)
      | Orders.Exit1 => requestFailed
      | Orders.Fetched _ _ =>
          {| after := Some (set_state Results s);
             effects := [RenderResults] |}
      | Orders.StillFetching =>
          {| after := Some (set_state Results s); effects := [] |}
      end
    else ignored s
  else ignored s.

(** The event loop: the first [render()] (line 426), then one
    [handleInput] per key; [rows] and the fate of the orders request
    may differ from call to call. *)
Inductive reachable (env : Env) : TuiState -> Prop :=
| reach_start : forall rows, reachable env (render env rows initial)
| reach_key : forall s rows fetched key s',
    reachable env s ->
    after (handleInput env rows fetched key s) = Some s' ->
    reachable env s'.

(** Feeding a list of keys, for concrete runs in which every orders
    request ends the same way; [None] once the process has exited. *)
Fixpoint feed (env : Env) (rows : Z) (fetched : Orders.Outcome)
  (keys : list string) (s : TuiState) : option TuiState :=
  match keys with
  | [] => Some s
  | k :: ks =>
      match after (handleInput env rows fetched k s) with
      | Some s' => feed env rows fetched ks s'
      | None => None
      end
  end.

(** ** Key decoding (lines 428-457)

    The [data] handler walks the characters of a chunk and awaits
    [handleInput] for every key it makes out; a lone ESC is told apart
    from the start of an arrow sequence by a 50 ms timer.  The code runs
    on three kinds of event, the inputs of the embedding:
    - [Chunk data]: a [data] event; the handler starts on the chunk;
    - [TimerFires]: a pending [setTimeout] callback runs.  Timers are
      never cancelled, so their number is part of the state; all wait
      50 ms, so the one that runs is the oldest;
    - [Returns n]: the [handleInput] call that a waiting handler awaits
      returns, and the handler goes on with the rest of its chunk.
    Only the call for Enter can keep a handler waiting while other
    events are served: it alone reaches the [await] of line 411, behind
    which the orders are requested.  Every other call returns before the
    next event.  So the handler stops at each Enter it hands over and
    [Returns] lets it go on, be it at once or after other events; the
    escape buffer is shared by all handlers.  Events are served one at
    a time, each to its end.  The keys handed to [handleInput] are the
    output, in the order of the calls. *)

Module Decoder.

Inductive Input :=
| Chunk (data : list ascii)    (* a [data] event *)
| TimerFires                   (* a pending 50 ms callback runs *)
| Returns (n : nat).           (* the call awaited by handler [n] returns *)

(** A chunk of one character. *)
Definition Byte (c : ascii) : Input := Chunk [c].

Record DecState := {
  escapeBuffer : string;
  pending : nat;                 (* timers set and not yet run *)
  waiting : list (list ascii)    (* the handlers that wait for an Enter
                                    call, oldest first, each with the
                                    characters left of its chunk *)
}.

Definition idle (n : nat) : DecState :=
  {| escapeBuffer := ""; pending := n; waiting := [] |}.

(** The body of the [for (const char of data)] loop. *)
Definition onChar (c : ascii) (d : DecState) : DecState * list string :=
  if JS.length (escapeBuffer d) >? 0 then
    let buf := (escapeBuffer d ++ String c EmptyString)%string in
    if ((JS.length buf =? 3) && JS.startsWith buf (String "027" "["))%bool
    then ({| escapeBuffer := ""; pending := pending d;
             waiting := waiting d |}, [buf])
    else if JS.length buf >=? 3
    then ({| escapeBuffer := ""; pending := pending d;
             waiting := waiting d |}, [])
    else ({| escapeBuffer := buf; pending := pending d;
             waiting := waiting d |}, [])
  else if Ascii.eqb c "027" then
    ({| escapeBuffer := ESC; pending := S (pending d);
        waiting := waiting d |}, [])
  else (d, [String c EmptyString]).

(** The [setTimeout] callback; [None] when no timer is pending. *)
Definition onTimeout (d : DecState) : option (DecState * list string) :=
  match pending d with
  | O => None
  | S n =>
      if (escapeBuffer d =? ESC)%string
      then Some ({| escapeBuffer := ""; pending := n;
                    waiting := waiting d |}, [ESC])
      else Some ({| escapeBuffer := escapeBuffer d; pending := n;
                    waiting := waiting d |}, [])
  end.

(** The loop over the characters [data] of a chunk that are still to
    come.  It runs to the end of the chunk, or to the first Enter it
    hands over: [Some rest] are the characters left then. *)
Fixpoint handler (data : list ascii) (d : DecState)
  : DecState * list string * option (list ascii) :=
  match data with
  | [] => (d, [], None)
  | c :: rest =>
      let (d1, out1) := onChar c d in
      if existsb (String.eqb CR) out1 then (d1, out1, Some rest)
      else
        let '(d2, out2, w) := handler rest d1 in
        (d2, out1 ++ out2, w)
  end.

(** A handler that stopped joins the waiting ones. *)
Definition park (w : option (list ascii)) (d : DecState) : DecState :=
  match w with
  | Some rest =>
      {| escapeBuffer := escapeBuffer d; pending := pending d;
         waiting := waiting d ++ [rest] |}
  | None => d
  end.

(** Handler [n] leaves the waiting ones. *)
Definition unpark (n : nat) (d : DecState) : DecState :=
  {| escapeBuffer := escapeBuffer d; pending := pending d;
     waiting := firstn n (waiting d) ++ skipn (S n) (waiting d) |}.

(** [None]: the event cannot happen in this state. *)
Definition step (i : Input) (d : DecState) : option (DecState * list string) :=
  match i with
  | Chunk data =>
      let '(d1, out, w) := handler data d in Some (park w d1, out)
  | TimerFires => onTimeout d
  | Returns n =>
      match nth_error (waiting d) n with
      | None => None
      | Some rest =>
          let '(d1, out, w) := handler rest (unpark n d) in
          Some (park w d1, out)
      end
  end.

(** The keys emitted over a whole sequence of events, in order. *)
Fixpoint run (ins : list Input) (d : DecState)
  : option (DecState * list string) :=
  match ins with
  | [] => Some (d, [])
  | i :: rest =>
      match step i d with
      | None => None
      | Some (d1, out1) =>
          match run rest d1 with
          | None => None
          | Some (d2, out2) => Some (d2, out1 ++ out2)
          end
      end
  end.

(** The characters of a chunk up to and including its first Enter, and
    the characters after it. *)
Fixpoint throughEnter (data : list ascii) : list ascii :=
  match data with
  | [] => []
  | c :: rest => if Ascii.eqb c "013" then [c] else c :: throughEnter rest
  end.

Fixpoint afterEnter (data : list ascii) : option (list ascii) :=
  match data with
  | [] => None
  | c :: rest => if Ascii.eqb c "013" then Some rest else afterEnter rest
  end.

End Decoder.

(** ** Notions used in the statements *)

(** The list the active screen shows; the results screen keeps the
    expansion list it came from. *)
Definition shownLength (env : Env) (s : TuiState) : Z :=
  match state s with
  | GameSelect => JS.alength (filteredGames env s)
  | _ => JS.alength (filteredExps env s)
  end.

(** Every marked id belongs to an expansion of the selected game, and no
    mark survives on the game list. *)
Definition marksScoped (env : Env) (s : TuiState) : Prop :=
  (forall id, In id (markedExpansions s) ->
     exists e, In e (expansions env) /\ e_id e = id /\
               selectedGameId s = Some (e_game_id e)) /\
  (state s = GameSelect -> markedExpansions s = []).

(** Pressing the down key on an empty list: the one step that moves the
    cursor off row 0 of an empty list (see C4). *)
Definition downOnEmptyList (env : Env) (key : string) (s : TuiState) : Prop :=
  (key = DOWN \/ key = "j"%string) /\ state s <> Results /\
  filterMode s = false /\ shownLength env s = 0.

(** The states reached without such a step. *)
Inductive reachableTidy (env : Env) : TuiState -> Prop :=
| tidy_start : forall rows, reachableTidy env (render env rows initial)
| tidy_key : forall s rows fetched key s',
    reachableTidy env s ->
    ~ downOnEmptyList env key s ->
    after (handleInput env rows fetched key s) = Some s' ->
    reachableTidy env s'.

(** On an empty list cursor and scroll offset rest at 0. *)
Definition restsAtZero (env : Env) (s : TuiState) : Prop :=
  shownLength env s = 0 -> cursor s = 0 /\ scrollOffset s = 0.

(** Sample data: the games and expansions of the specification's
    scenario A. *)
Definition sampleEnv : Env :=
  {| games := [ {| g_id := 1; g_name := "Magic" |} ];
     expansions := [ {| e_id := 10; e_game_id := 1; e_name := "Alpha" |};
                     {| e_id := 11; e_game_id := 1; e_name := "Beta" |} ];
     caseFold := JS.asciiFold |}.

(** The first paint of the sample data on a 30-row terminal. *)
Definition sampleStart : TuiState := render sampleEnv 30 initial.

(** The orders request of the sample runs: answered from a fresh cache
    file that holds no order. *)
Definition noOrders : Orders.Outcome := Orders.Fetched [] false.


(** ** Comparators

    [descending key] is the comparator [(a, b) => key(b) - key(a)]. *)
Definition descending {A} (key : A -> Z) (a b : A) : Z := key b - key a.

Definition keyIs {A} (key : A -> Z) (c : Z) (a : A) : bool := key a =? c.

(** ** What the aggregation is meant to compute

    These definitions follow the wording of the specification, not the
    loops of [renderResults]; the theorems below relate the two. *)

Module SalesSpec.

Import Sales.

(** Case-insensitive exact equality of two names: they are the same
    text once both are in lower case. *)
Definition sameIgnoringCase (lc : JS.CaseFold) (a b : string) : bool :=
  (JS.toLowerCase lc a =? JS.toLowerCase lc b)%string.


(** The line items of all records, in the order they are stored; a
    record without an item array has none. *)
Definition lineItems (orders : list Order) : list OrderItem :=
  flat_map (fun o => match orderLines o with Some l => l | None => [] end)
    orders.

(** The expansion name recorded on a line item (empty when absent). *)
Definition recordedExpansion (item : OrderItem) : string :=
  match expansion item with Some n => n | None => EmptyString end.


Definition sumZ (l : list Z) : Z := fold_right Z.add 0 l.

Definition revenueOf (item : OrderItem) : Z :=
  priceCentsOf item * qtyOf item.





(** What lines 243-252 add for one matching item. *)
Definition addItem (a : Acc) (item : OrderItem) : Acc :=
  let prev := match Map_get (cardBreakdown a) (nameOf item) with
              | Some t => t
              | None => {| qty := 0; cents := 0 |}
              end in
  {| totalCents := totalCents a + revenueOf item;
     totalQty := totalQty a + qtyOf item;
     cardBreakdown :=
       Map_set (cardBreakdown a) (nameOf item)
         {| qty := qty prev + qtyOf item;
            cents := cents prev + revenueOf item |} |}.

(** The items that pass the test of line 242. *)
Definition matching (lc : JS.CaseFold) (expName : string)
  (l : list OrderItem) : list OrderItem :=
  filter (fun it => (itemExpName lc it =? expName)%string) l.

Definition centsIs (c : Z) (a : string * Tally) : bool :=
  cents (snd a) =? c.

(** [ranked] lists the entries by descending revenue, entries of equal
    revenue in the order they have in [entries]. *)
Definition rankedByRevenue (entries ranked : Breakdown) : Prop :=
  Permutation ranked entries /\
  StronglySorted (fun a b => cents (snd b) <= cents (snd a)) ranked /\
  forall c, filter (centsIs c) ranked = filter (centsIs c) entries.

(** Scenario A of the specification: one record with one line item. *)
Definition cardA : OrderItem :=
  {| expansion := Some "Alpha"%string; quantity := Some 2;
     seller_price_cents := Some 500; price_cents := None;
     price_x100 := None; name := Some "Card A"%string;
     blueprint_name := None |}.

(** A line item of the same expansion with neither quantity nor price. *)
Definition bare : OrderItem :=
  {| expansion := Some "ALPHA"%string; quantity := None;
     seller_price_cents := None; price_cents := None;
     price_x100 := None; name := Some "Card B"%string;
     blueprint_name := None |}.

Definition orderOf (l : list OrderItem) : Order :=
  {| order_items := AnArray l; items := Falsy |}.

End SalesSpec.

(** ** Further notions used in the statements *)

(** The results screen is shown only with something marked and outside
    filter sub-mode, and off the game list a game of the list is the
    selected one. *)
Definition screenConsistent (env : Env) (s : TuiState) : Prop :=
  (state s = Results ->
   markedExpansions s <> [] /\ filterMode s = false) /\
  (state s <> GameSelect ->
   exists g, In g (games env) /\ selectedGameId s = Some (g_id g)) /\
  NoDup (markedExpansions s).

(** Cursor and scroll offset are not negative and the cursor is on a row
    of the list shown, on row 0 when the list is empty. *)
Definition cursorInList (env : Env) (s : TuiState) : Prop :=
  0 <= cursor s /\ 0 <= scrollOffset s /\
  (shownLength env s = 0 -> cursor s = 0 /\ scrollOffset s = 0) /\
  (shownLength env s <> 0 -> cursor s < shownLength env s).

(** ** What the list renderers paint (lines 153-161 and 194-203)

    A painted list line: the screen line it is written to, the entry, the
    secondary indicator (the number of sets of a game, the check mark of
    an expansion) and whether the line is painted inverted. *)
Record Line (A B : Type) := {
  line_row : Z;
  line_item : A;
  line_mark : B;
  line_isCursor : bool
}.
Arguments line_row {A B} _.
Arguments line_item {A B} _.
Arguments line_mark {A B} _.
Arguments line_isCursor {A B} _.

(** The loop
    [for (let i = 0; i < visibleRows
          && i + scrollOffset < filtered.length; i++)]
    from index [i] on.  Every iteration raises [i], so [fuel] iterations
    are enough when [visibleRows - i <= fuel].  An [undefined] entry is
    skipped by [continue]. *)
Fixpoint paintLoop {A B} (mark : A -> B) (filtered : list A)
  (visibleRows : Z) (s : TuiState) (fuel : nat) (i : Z) : list (Line A B) :=
  match fuel with
  | O => []
  | S fuel' =>
      if ((i <? visibleRows)
          && (i + scrollOffset s <? JS.alength filtered))%bool then
        match JS.index filtered (i + scrollOffset s) with
        | None => paintLoop mark filtered visibleRows s fuel' (i + 1)
        | Some item =>
            {| line_row := 3 + i; line_item := item; line_mark := mark item;
               line_isCursor := (i + scrollOffset s =? cursor s) |}
              :: paintLoop mark filtered visibleRows s fuel' (i + 1)
        end
      else []
  end.

(** The list part of a screen: nothing when the filtered list is empty
    (a message is printed instead), else the loop run on the adjusted
    cursor and scroll offset. *)
Definition paintList {A B} (mark : A -> B) (filtered : list A)
  (visibleRows : Z) (s : TuiState) : list (Line A B) :=
  if JS.alength filtered =? 0 then []
  else
    paintLoop mark filtered visibleRows
      (adjustViewport (JS.alength filtered) visibleRows s)
      (Z.to_nat visibleRows) 0.

(** Line 157: the number of sets shown after a game. *)
Definition expCount (env : Env) (game : Game) : Z :=
  JS.alength (filter (fun e => e_game_id e =? g_id game) (expansions env)).

Definition paintGameSelect (env : Env) (rows : Z) (s : TuiState)
  : list (Line Game Z) :=
  paintList (expCount env) (filteredGames env s) (getVisibleRows rows) s.

(** Line 198: the check mark of an expansion. *)
Definition paintExpansionSelect (env : Env) (rows : Z) (s : TuiState)
  : list (Line Expansion bool) :=
  paintList (fun e => JS.Set_has (markedExpansions s) (e_id e))
    (filteredExps env s) (getVisibleRows rows) s.

(** ** Shapes of decoder output and decoder state *)

(** A key as [handleInput] can receive it: one character, or the three
    characters ESC, left bracket and one more. *)
Definition isKey (k : string) : Prop :=
  (exists c, k = String c EmptyString) \/
  (exists c, k = String "027" (String "[" (String c EmptyString))).

(** The escape buffer between characters: empty, a lone ESC, or ESC and
    one more character. *)
Definition bufferShape (b : string) : Prop :=
  b = EmptyString \/ b = ESC \/
  exists c, b = String "027" (String c EmptyString).

(** ** More sample data *)

(** A line item of expansion Alpha: one copy of card [nm] at [price]
    cents. *)
Definition sampleCard (nm : string) (price : Z) : Sales.OrderItem :=
  {| Sales.expansion := Some "Alpha"%string; Sales.quantity := Some 1;
     Sales.seller_price_cents := Some price; Sales.price_cents := None;
     Sales.price_x100 := None; Sales.name := Some nm;
     Sales.blueprint_name := None |}.

(** Two games without expansions. *)
Definition twoGames : Env :=
  {| games := [ {| g_id := 1; g_name := "Magic" |};
                {| g_id := 2; g_name := "Pokemon" |} ];
     expansions := []; caseFold := JS.asciiFold |}.



(** One record selling six different cards. *)
Definition sixCards : list Sales.Order :=
  [SalesSpec.orderOf
     [sampleCard "C1" 100; sampleCard "C2" 600; sampleCard "C3" 300;
      sampleCard "C4" 500; sampleCard "C5" 200; sampleCard "C6" 400]].

(** ** The game list (lines 69-78)

    The games are read off the categories: the first category of each
    [game_id] supplies the game, named by the category name with its
    suffix cut off and trimmed; the games are then sorted by name.  The
    suffix expression and [localeCompare] are parameters: [cleanName] is
    [cat.name.replace(/ (Single Card|...).*/i, '').trim()]. *)

Record Category := { c_id : Z; c_game_id : Z; c_name : string }.

Module GameList.

Section WithNames.

Variable cleanName : string -> string.
Variable localeCompare : string -> string -> Z.

(** [gamesMap]: a [Map] from game id to game, in insertion order. *)
Definition Map_has (m : list (Z * Game)) (k : Z) : bool :=
  existsb (fun e => fst e =? k) m.

(** The body of the loop over the categories (lines 72-76). *)
Definition addCategory (m : list (Z * Game)) (cat : Category)
  : list (Z * Game) :=
  if negb (Map_has m (c_game_id cat))
  then m ++ [(c_game_id cat,
              {| g_id := c_game_id cat; g_name := cleanName (c_name cat) |})]
  else m.

Definition gamesMap (categories : list Category) : list (Z * Game) :=
  fold_left addCategory categories [].

(** Line 78 *)
Definition gamesOf (categories : list Category) : list Game :=
  JS.sort (fun a b => localeCompare (g_name a) (g_name b))
    (map snd (gamesMap categories)).

(** [e] is the entry made from the first category of its game id. *)
Definition fromFirst (categories : list Category) (e : Z * Game) : Prop :=
  exists pre cat post,
    categories = pre ++ cat :: post /\
    c_game_id cat = fst e /\
    (forall c, In c pre -> c_game_id c <> fst e) /\
    snd e = {| g_id := c_game_id cat; g_name := cleanName (c_name cat) |}.

End WithNames.

End GameList.

(** Two categories of game 1 and one of game 2. *)
Definition sampleCategories : list Category :=
  [ {| c_id := 1; c_game_id := 1; c_name := "Magic Single Card" |};
    {| c_id := 2; c_game_id := 2; c_name := "Pokemon Single Card" |};
    {| c_id := 3; c_game_id := 1; c_name := "Magic Token" |} ].

(** ** Fetching all cards (lines 555-594 of the Scryfall script) *)

Module Cards.

Record Card := { name : string; set : string; collector_number : string }.

Inductive Response :=
| Rejected              (* [scryfallGet] rejects: network or parse error *)
| ErrorObject           (* [response.object === 'error'] *)
| Page (data : option (list Card)) (has_more : bool).
                        (* [data]: [None] when falsy; [has_more === true] *)

Inductive Outcome :=
| Thrown                (* the error is written out and thrown again *)
| Fetched (cards : list Card)
| StillFetching.

(** The [while (hasMore)] loop (lines 565-590). *)
Fixpoint fetchPages (fetch : Z -> Response) (fuel : nat) (page : Z)
  (allCards : list Card) : Outcome :=
  match fuel with
  | O => StillFetching
  | S fuel' =>
      match fetch page with
      | Rejected | ErrorObject => Thrown
      | Page data has_more =>
          let cards := match data with Some d => d | None => [] end in
          if has_more
          then fetchPages fetch fuel' (page + 1) (allCards ++ cards)
          else Fetched (allCards ++ cards)
      end
  end.

Definition fetchAllCards (fetch : Z -> Response) (fuel : nat) : Outcome :=
  fetchPages fetch fuel 1 [].

(** [pages] are the card lists the server answers, in a row, from page
    [p] on, each announcing more. *)
Definition morePagesFrom (fetch : Z -> Response) (p : Z)
  (pages : list (list Card)) : Prop :=
  forall i data, nth_error pages i = Some data ->
    fetch (p + Z.of_nat i) = Page (Some data) true.

End Cards.

(** ** Command line of the Scryfall script: [parseArgs] (lines 498-526) *)

Module Args.

(** [s.split(sep)] for a one-character separator. *)
Fixpoint split (sep : ascii) (s : string) : list string :=
  match s with
  | EmptyString => [EmptyString]
  | String c r =>
      if Ascii.eqb c sep then EmptyString :: split sep r
      else match split sep r with
           | p :: ps => String c p :: ps
           | [] => [String c EmptyString]
           end
  end.

(** White space as [parseInt] strips it, among the 8-bit characters:
    TAB, LF, VT, FF, CR, space and the no-break space. *)
Definition isWhite (c : ascii) : bool :=
  existsb (Ascii.eqb c) ["009"; "010"; "011"; "012"; "013"; " "; "160"]%char.

Fixpoint skipWhite (s : string) : string :=
  match s with
  | String c r => if isWhite c then skipWhite r else s
  | EmptyString => EmptyString
  end.

Definition digitOf (c : ascii) : option Z :=
  if (Ascii.leb "0" c && Ascii.leb c "9")%bool
  then Some (Z.of_nat (nat_of_ascii c) - 48) else None.

(** The value of the longest prefix of decimal digits, after the digits
    read so far; [None] when there is no digit at all. *)
Fixpoint digits (acc : option Z) (s : string) : option Z :=
  match s with
  | EmptyString => acc
  | String c r =>
      match digitOf c with
      | Some d =>
          digits (Some (10 * match acc with Some a => a | None => 0 end + d)) r
      | None => acc
      end
  end.

(** [parseInt(s, 10)]; [None] is [NaN].  The result is exact, as the
    JavaScript number is up to 2^53. *)
Definition parseInt10 (s : string) : option Z :=
  match skipWhite s with
  | String "-" r => option_map Z.opp (digits None r)
  | String "+" r => digits None r
  | t => digits None t
  end.

Record Options := {
  query : option string;        (* [null] at first *)
  unique : option string;       (* [None]: [undefined] *)
  output : option string;
  format : option string;
  delay : option Z;             (* [None]: [NaN] *)
  json : bool
}.

Definition defaults : Options :=
  {| query := None; unique := Some "art"%string; output := None;
     format := Some "moxfield"%string; delay := Some 100; json := false |}.

(** [arg.split('=')[1]] *)
Definition valueOf (arg : string) : option string :=
  nth_error (split "=" arg) 1.

(** [!options.query] *)
Definition noQuery (q : option string) : bool :=
  match q with
  | None | Some EmptyString => true
  | Some _ => false
  end.

(** The body of the loop over the arguments (lines 510-522). *)
Definition step (o : Options) (arg : string) : Options :=
  if JS.startsWith arg "--unique=" then
    {| query := query o; unique := valueOf arg; output := output o;
       format := format o; delay := delay o; json := json o |}
  else if JS.startsWith arg "--output=" then
    {| query := query o; unique := unique o; output := valueOf arg;
       format := format o; delay := delay o; json := json o |}
  else if JS.startsWith arg "--format=" then
    {| query := query o; unique := unique o; output := output o;
       format := valueOf arg; delay := delay o; json := json o |}
  else if JS.startsWith arg "--delay=" then
    {| query := query o; unique := unique o; output := output o;
       format := format o;
       delay := match valueOf arg with
                | Some v => parseInt10 v
                | None => None
                end;
       json := json o |}
  else if (arg =? "--json")%string then
    {| query := query o; unique := unique o; output := output o;
       format := format o; delay := delay o; json := true |}
  else if (negb (JS.startsWith arg "--") && noQuery (query o))%bool then
    {| query := Some arg; unique := unique o; output := output o;
       format := format o; delay := delay o; json := json o |}
  else o.

(** [args] is [process.argv.slice(2)]. *)
Definition parseArgs (args : list string) : Options :=
  fold_left step args defaults.

(** The last argument that begins with [flag]. *)
Definition lastWith (flag : string) (args : list string) : option string :=
  find (fun a => JS.startsWith a flag) (rev args).

(** An argument that can be the query: not empty, not beginning with
    two dashes. *)
Definition positional (a : string) : bool :=
  (negb (JS.startsWith a "--") && negb (a =? ""))%string%bool.

(** The query as [main] tests it (line 629): an empty one counts as
    none. *)
Definition queryGiven (o : Options) : option string :=
  if noQuery (query o) then None else query o.

(** No equals sign occurs in [s]. *)
Fixpoint noEquals (s : string) : bool :=
  match s with
  | EmptyString => true
  | String c r => (negb (Ascii.eqb c "=") && noEquals r)%bool
  end.

End Args.
(** * Properties *)

(** Boolean comparisons on [Z] to propositions, everywhere. *)
Ltac zbool :=
  rewrite ?Z.geb_leb, ?Z.gtb_ltb in *;
  rewrite ?Z.leb_le, ?Z.leb_gt, ?Z.ltb_lt, ?Z.ltb_ge, ?Z.eqb_eq,
    ?Z.eqb_neq in *.

(** ** The renderers *)

Section Viewport.

Variables (len visibleRows : Z) (s : TuiState).

Lemma adjustViewport_frame :
  let s' := adjustViewport len visibleRows s in
  state s' = state s /\ selectedGameId s' = selectedGameId s /\
  filterMode s' = filterMode s /\ filterText s' = filterText s /\
  markedExpansions s' = markedExpansions s.
Proof.
  unfold adjustViewport.
  destruct (len =? 0); [now repeat split|].
  destruct (cursor s >=? len); cbn;
    repeat match goal with
           | |- context [if ?c then _ else _] => destruct c; cbn
           end; now repeat split.
Qed.

Lemma adjustViewport_empty :
  len = 0 -> adjustViewport len visibleRows s = s.
Proof. intros ->. reflexivity. Qed.

(** Nothing is assigned when cursor and offset are already in place. *)
Lemma adjustViewport_settled :
  cursor s < len ->
  scrollOffset s <= cursor s < scrollOffset s + visibleRows ->
  adjustViewport len visibleRows s = s.
Proof.
  intros Hc Hv. unfold adjustViewport.
  destruct (len =? 0); [reflexivity|].
  destruct (cursor s >=? len) eqn:E1; [zbool; lia|].
  destruct (cursor s <? scrollOffset s) eqn:E2; [zbool; lia|].
  destruct (cursor s >=? scrollOffset s + visibleRows) eqn:E3; [zbool; lia|].
  reflexivity.
Qed.

(** With a row to show, the cursor row ends up inside the window. *)
Lemma adjustViewport_window :
  len <> 0 -> 1 <= visibleRows ->
  let s' := adjustViewport len visibleRows s in
  scrollOffset s' <= cursor s' < scrollOffset s' + visibleRows.
Proof.
  intros Hl Hv. unfold adjustViewport.
  destruct (Z.eqb_spec len 0) as [|_]; [contradiction|].
  destruct (cursor s >=? len); cbn;
    repeat match goal with
           | |- context [if ?c then _ else _] => destruct c eqn:?; cbn
           end;
    zbool; cbn in *; lia.
Qed.

(** The cursor is clamped from above only; a cursor in range stays. *)
Lemma adjustViewport_cursor :
  0 < len ->
  let s' := adjustViewport len visibleRows s in
  cursor s' < len /\ (0 <= cursor s -> 0 <= cursor s') /\
  (cursor s < len -> cursor s' = cursor s).
Proof.
  intros Hl. unfold adjustViewport.
  destruct (Z.eqb_spec len 0) as [|_]; [lia|].
  destruct (cursor s >=? len) eqn:Hge; cbn;
    repeat match goal with
           | |- context [if ?c then _ else _] => destruct c eqn:?; cbn
           end;
    zbool; cbn in *; lia.
Qed.

End Viewport.

Lemma render_frame env rows s :
  let s' := render env rows s in
  state s' = state s /\ selectedGameId s' = selectedGameId s /\
  filterMode s' = filterMode s /\ filterText s' = filterText s /\
  markedExpansions s' = markedExpansions s.
Proof.
  unfold render, renderGameSelect, renderExpansionSelect.
  destruct (state s) eqn:E; rewrite <- ?E; try apply adjustViewport_frame.
  cbv zeta. rewrite E. now repeat split.
Qed.

Lemma Screen_eqb_eq a b : Screen_eqb a b = true <-> a = b.
Proof. destruct a, b; cbn; split; congruence. Qed.

Lemma alength_nil_iff {A} (l : list A) : JS.alength l = 0 <-> l = [].
Proof.
  unfold JS.alength. destruct l; cbn; split; try easy; lia.
Qed.

Lemma index_In {A} (l : list A) i x : JS.index l i = Some x -> In x l.
Proof.
  unfold JS.index. destruct (i <? 0); [discriminate|]. apply nth_error_In.
Qed.

(** ** Marks stay within the selected game *)

(** Split [handleInput] along its branches: [H] states what the handler
    left behind; every branch that continues yields the state it built. *)
Ltac handleInput_branches H :=
  unfold handleInput in H;
  repeat match type of H with
         | context [if ?c then _ else _] => destruct c eqn:?
         | context [match ?x with Some _ => _ | None => _ end] =>
             destruct x eqn:?
         | context [match ?x with Orders.Exit1 => _ | _ => _ end] =>
             destruct x eqn:?
         end;
  unfold exits, requestFailed, rendered, ignored in H; cbn [after] in H;
  try discriminate; injection H as <-;
  repeat match goal with
         | H : (_ && _)%bool = true |- _ => apply andb_prop in H; destruct H
         | H : Screen_eqb _ _ = true |- _ => apply Screen_eqb_eq in H
         end.


Lemma inGame_true sel e : inGame sel e = true -> sel = Some (e_game_id e).
Proof.
  destruct sel as [g|]; cbn; [|discriminate].
  intros H. apply Z.eqb_eq in H. now subst.
Qed.

Lemma filteredExps_In env s e :
  In e (filteredExps env s) ->
  In e (expansions env) /\ selectedGameId s = Some (e_game_id e).
Proof.
  unfold filteredExps, gameExpansions. rewrite !filter_In.
  intros [[Hin Hg] _]. split; [assumption|]. now apply inGame_true.
Qed.

Lemma Set_add_In m x y : In y (JS.Set_add m x) -> In y m \/ y = x.
Proof.
  unfold JS.Set_add. destruct (JS.Set_has m x); [now left|].
  rewrite in_app_iff. cbn. intuition.
Qed.

Lemma Set_delete_In m x y : In y (JS.Set_delete m x) -> In y m.
Proof. unfold JS.Set_delete. rewrite filter_In. tauto. Qed.

Lemma marksScoped_render env rows s :
  marksScoped env s -> marksScoped env (render env rows s).
Proof.
  destruct (render_frame env rows s) as (Est & Esel & _ & _ & Em).
  unfold marksScoped. rewrite Est, Esel, Em. trivial.
Qed.

Lemma marksScoped_initial env : marksScoped env initial.
Proof. split; [intros id []|reflexivity]. Qed.

Lemma marksScoped_step env rows fetched key s s' :
  marksScoped env s ->
  after (handleInput env rows fetched key s) = Some s' ->
  marksScoped env s'.
Proof.
  intros [Hsub Hgs] H.
  handleInput_branches H;
    try apply marksScoped_render; try (split; assumption);
    split; cbn; try congruence; try exact Hsub; try exact Hgs;
    try (intros id []); intros id Hid.
  - (* Space removes a mark *)
    apply Set_delete_In in Hid. auto.
  - (* Space adds the highlighted expansion *)
    apply Set_add_In in Hid. destruct Hid as [Hid | ->]; [auto|].
    match goal with
    | Hi : JS.index _ _ = Some ?e |- _ =>
        apply index_In, filteredExps_In in Hi; destruct Hi; exists e; auto
    end.
  - (* Enter on a game: no mark exists there *)
    match goal with
    | Hs : state s = GameSelect |- _ => rewrite (Hgs Hs) in Hid
    end.
    destruct Hid.
Qed.

Lemma reachable_marksScoped env s : reachable env s -> marksScoped env s.
Proof.
  induction 1 as [rows | s rows fetched key s' _ IH Ha].
  - apply marksScoped_render, marksScoped_initial.
  - eapply marksScoped_step; eassumption.
Qed.

Lemma feed_reachable env rows fetched keys : forall s s',
  reachable env s -> feed env rows fetched keys s = Some s' ->
  reachable env s'.
Proof.
  induction keys as [|k ks IH]; cbn; intros s s' Hr H.
  - now injection H as <-.
  - destruct (after (handleInput env rows fetched k s)) as [s1|] eqn:E;
      [|discriminate].
    eapply IH; [|exact H]. eapply reach_key; [exact Hr|exact E].
Qed.

Lemma sampleStart_reachable : reachable sampleEnv sampleStart.
Proof. apply reach_start. Qed.

(** ** Leaving the results screen *)

(** C2, counterexample: Enter on the game, move down, mark, Enter, then
    any key: the cursor comes back on row 1, not on row 0. *)
Lemma results_key_keeps_cursor :
  exists s s',
    feed sampleEnv 30 noOrders [CR; "j"; " "; CR]%string sampleStart
      = Some s /\
    state s = Results /\
    after (handleInput sampleEnv 30 noOrders "x" s) = Some s' /\
    state s' = ExpansionSelect /\ cursor s' = 1 /\ cursor s' <> 0.
Proof.
  eexists. eexists. split; [vm_compute; reflexivity|].
  split; [reflexivity|]. split; [vm_compute; reflexivity|].
  cbn. repeat split. discriminate.
Qed.

(** C2, amended: on the results screen every key but [q] leads back to
    the expansion list and repaints it.  Marks, filter text, filter mode
    and selected game are kept; cursor and scroll offset are not reset:
    they are the previous ones as the renderer adjusts them, hence
    exactly the previous ones when those already fit the list and the
    window, or when the list is empty. *)
Theorem results_any_key_returns_to_expansions :
  forall env rows fetched key s,
    state s = Results -> key <> "q"%string ->
    exists s',
      handleInput env rows fetched key s =
        {| after := Some s'; effects := [Render] |} /\
      state s' = ExpansionSelect /\
      markedExpansions s' = markedExpansions s /\
      selectedGameId s' = selectedGameId s /\
      filterText s' = filterText s /\ filterMode s' = filterMode s /\
      (cursor s < JS.alength (filteredExps env s) ->
       scrollOffset s <= cursor s < scrollOffset s + getVisibleRows rows ->
       cursor s' = cursor s /\ scrollOffset s' = scrollOffset s) /\
      (filteredExps env s = [] ->
       cursor s' = cursor s /\ scrollOffset s' = scrollOffset s).
Proof.
  intros env rows fetched key s Hs Hk.
  exists (render env rows (set_state ExpansionSelect s)).
  split.
  { unfold handleInput. rewrite Hs. cbn [Screen_eqb].
    destruct (String.eqb_spec key "q"); [contradiction|reflexivity]. }
  destruct (render_frame env rows (set_state ExpansionSelect s))
    as (E1 & E2 & E3 & E4 & E5). cbv zeta in *.
  rewrite E1, E2, E3, E4, E5. cbn.
  repeat split; unfold renderExpansionSelect.
  - rewrite adjustViewport_settled; auto.
  - rewrite adjustViewport_settled; auto.
  - rewrite adjustViewport_empty; [reflexivity|].
    apply alength_nil_iff. assumption.
  - rewrite adjustViewport_empty; [reflexivity|].
    apply alength_nil_iff. assumption.
Qed.

Lemma results_any_key_returns_to_expansions_witness :
  exists s',
    handleInput sampleEnv 30 noOrders "x"
      {| state := Results; selectedGameId := Some 1; cursor := 1;
         scrollOffset := 0; filterMode := false; filterText := "";
         markedExpansions := [11] |} =
      {| after := Some s'; effects := [Render] |} /\
    state s' = ExpansionSelect /\ markedExpansions s' = [11].
Proof.
  destruct (results_any_key_returns_to_expansions sampleEnv 30 noOrders "x"
    {| state := Results; selectedGameId := Some 1; cursor := 1;
       scrollOffset := 0; filterMode := false; filterText := "";
       markedExpansions := [11] |} eq_refl)
    as (s' & H1 & H2 & H3 & _).
  - discriminate.
  - exists s'. repeat split; assumption.
Defined.

(** ** The quit key *)

(** C9, counterexample: in filter sub-mode [q] is typed into the filter;
    the process keeps running. *)
Lemma quit_key_typed_into_filter :
  exists s s',
    feed sampleEnv 30 noOrders ["/"]%string sampleStart = Some s /\
    after (handleInput sampleEnv 30 noOrders "q" s) = Some s' /\
    filterText s' = "q"%string /\ state s' = GameSelect.
Proof.
  eexists. eexists. split; [vm_compute; reflexivity|].
  split; [vm_compute; reflexivity|]. split; reflexivity.
Qed.

(** C9, amended: [q] shows the cursor and exits with status 0 on the
    results screen and, outside filter sub-mode, on both list screens.
    In filter sub-mode of a list screen [q] is an ordinary character: it
    is appended to the filter text and the program goes on. *)
Theorem quit_key_exits_outside_filter_mode :
  forall env rows fetched s,
    (state s = Results \/ filterMode s = false ->
     handleInput env rows fetched "q" s =
       {| after := None; effects := [ShowCursor; ProcessExit 0] |}) /\
    (state s <> Results -> filterMode s = true ->
     exists s',
       handleInput env rows fetched "q" s =
         {| after := Some s'; effects := [Render] |} /\
       state s' = state s /\ filterMode s' = true /\
       filterText s' = (filterText s ++ "q")%string).
Proof.
  intros env rows fetched s. unfold handleInput. split.
  - intros [Hs|Hf].
    + rewrite Hs. reflexivity.
    + destruct (Screen_eqb (state s) Results); [reflexivity|].
      rewrite Hf. reflexivity.
  - intros Hs Hf.
    destruct (Screen_eqb (state s) Results) eqn:E;
      [apply Screen_eqb_eq in E; contradiction|].
    rewrite Hf. cbn -[render].
    eexists. split; [reflexivity|].
    match goal with
    | |- context [render env rows ?x] =>
        destruct (render_frame env rows x) as (E1 & _ & E3 & E4 & _)
    end.
    cbv zeta in *. rewrite E1, E3, E4. cbn. auto.
Qed.

Lemma quit_key_exits_outside_filter_mode_witness :
  handleInput sampleEnv 30 noOrders "q" initial =
    {| after := None; effects := [ShowCursor; ProcessExit 0] |} /\
  exists s',
    handleInput sampleEnv 30 noOrders "q" (set_filterMode true initial) =
      {| after := Some s'; effects := [Render] |} /\
    state s' = GameSelect /\ filterMode s' = true /\
    filterText s' = "q"%string.
Proof.
  split.
  - apply (quit_key_exits_outside_filter_mode sampleEnv 30 noOrders initial).
    right. reflexivity.
  - apply (quit_key_exits_outside_filter_mode sampleEnv 30 noOrders
             (set_filterMode true initial)).
    + discriminate.
    + reflexivity.
Defined.

(** ** Enter *)

(** C10, counterexample: with nothing marked, Enter in the filter
    sub-mode of the expansion list leaves the sub-mode, so [filterMode]
    does not keep its value. *)
Lemma enter_leaves_filter_mode :
  exists s s',
    feed sampleEnv 30 noOrders [CR; "/"]%string sampleStart = Some s /\
    state s = ExpansionSelect /\ markedExpansions s = [] /\
    filterMode s = true /\
    after (handleInput sampleEnv 30 noOrders CR s) = Some s' /\
    filterMode s' = false.
Proof.
  eexists. eexists. split; [vm_compute; reflexivity|].
  split; [reflexivity|]. split; [reflexivity|]. split; [reflexivity|].
  split; [vm_compute; reflexivity|reflexivity].
Qed.

(** C10, amended: on the expansion list with nothing marked and outside
    filter sub-mode, Enter changes no part of the state and has no effect
    at all: no repaint, no results screen, no aggregation.  In filter
    sub-mode Enter only leaves the sub-mode and repaints: screen, filter
    text, marks and selected game are kept and no aggregation is run. *)
Theorem enter_without_marks_is_ignored :
  forall env rows fetched s,
    state s = ExpansionSelect -> markedExpansions s = [] ->
    (filterMode s = false ->
     handleInput env rows fetched CR s =
       {| after := Some s; effects := [] |}) /\
    (filterMode s = true ->
     exists s',
       handleInput env rows fetched CR s =
         {| after := Some s'; effects := [Render] |} /\
       state s' = ExpansionSelect /\ filterMode s' = false /\
       filterText s' = filterText s /\ markedExpansions s' = [] /\
       selectedGameId s' = selectedGameId s).
Proof.
  intros env rows fetched s Hs Hm. unfold handleInput. rewrite Hs, Hm.
  split.
  - intros ->. reflexivity.
  - intros ->. cbn -[render]. eexists. split; [reflexivity|].
    match goal with
    | |- context [render env rows ?x] =>
        destruct (render_frame env rows x) as (E1 & E2 & E3 & E4 & E5)
    end.
    cbv zeta in *. rewrite E1, E2, E3, E4, E5. cbn. auto.
Qed.

Lemma enter_without_marks_is_ignored_witness :
  let s := {| state := ExpansionSelect; selectedGameId := Some 1;
              cursor := 1; scrollOffset := 0; filterMode := false;
              filterText := ""; markedExpansions := [] |} in
  handleInput sampleEnv 30 noOrders CR s =
    {| after := Some s; effects := [] |} /\
  exists s',
    handleInput sampleEnv 30 noOrders CR (set_filterMode true s) =
      {| after := Some s'; effects := [Render] |} /\
    state s' = ExpansionSelect /\ filterMode s' = false /\
    filterText s' = ""%string /\ markedExpansions s' = [] /\
    selectedGameId s' = Some 1.
Proof.
  intros s. split.
  - apply (enter_without_marks_is_ignored sampleEnv 30 noOrders s);
      reflexivity.
  - apply (enter_without_marks_is_ignored sampleEnv 30 noOrders
             (set_filterMode true s)); reflexivity.
Defined.

(** C5, counterexample: in filter sub-mode Enter on the game list, with
    a game highlighted, only leaves the sub-mode; the game list stays. *)
Lemma enter_in_filter_mode_stays_on_games :
  exists s game s',
    feed sampleEnv 30 noOrders ["/"]%string sampleStart = Some s /\
    state s = GameSelect /\
    JS.index (filteredGames sampleEnv s) (cursor s) = Some game /\
    after (handleInput sampleEnv 30 noOrders CR s) = Some s' /\
    state s' = GameSelect /\ state s' <> ExpansionSelect.
Proof.
  eexists. eexists. eexists. split; [vm_compute; reflexivity|].
  split; [reflexivity|]. split; [vm_compute; reflexivity|].
  split; [vm_compute; reflexivity|]. split; [reflexivity|discriminate].
Qed.

(** C5, amended: from a reachable state on the game list, outside filter
    sub-mode and with a game under the cursor, Enter selects that game
    and opens its expansion list with cursor 0, empty filter text and no
    marks; the scroll offset is 0 as well whenever the terminal shows at
    least one list row or the game has no expansion. *)
Theorem enter_on_game_opens_expansions :
  forall env rows fetched s game,
    reachable env s ->
    state s = GameSelect -> filterMode s = false ->
    JS.index (filteredGames env s) (cursor s) = Some game ->
    exists s',
      handleInput env rows fetched CR s =
        {| after := Some s'; effects := [Render] |} /\
      state s' = ExpansionSelect /\
      selectedGameId s' = Some (g_id game) /\
      cursor s' = 0 /\ filterText s' = ""%string /\
      markedExpansions s' = [] /\
      (1 <= getVisibleRows rows \/ filteredExps env s' = [] ->
       scrollOffset s' = 0).
Proof.
  intros env rows fetched s game Hr Hs Hf Hg.
  destruct (reachable_marksScoped env s Hr) as [_ Hm]. specialize (Hm Hs).
  unfold handleInput. rewrite Hs, Hf, Hg. cbn -[render].
  eexists. split; [reflexivity|].
  match goal with
  | |- context [render env rows ?x] =>
      set (s0 := x);
      destruct (render_frame env rows s0) as (E1 & E2 & E3 & E4 & E5)
  end.
  cbv zeta in *. rewrite E1, E2, E4, E5.
  split; [reflexivity|]. split; [reflexivity|].
  assert (Hlist : filteredExps env (render env rows s0) = filteredExps env s0).
  { unfold filteredExps, gameExpansions. now rewrite E2, E4. }
  rewrite Hlist.
  unfold render, renderExpansionSelect. cbn [state s0 set_filterText
    set_scrollOffset set_cursor set_state set_selectedGameId].
  destruct (Z.eq_dec (JS.alength (filteredExps env s0)) 0) as [E0|E0].
  - rewrite adjustViewport_empty by assumption. cbn. auto.
  - assert (Hpos : 0 < JS.alength (filteredExps env s0))
      by (unfold JS.alength in *; lia).
    destruct (adjustViewport_cursor (JS.alength (filteredExps env s0))
                (getVisibleRows rows) s0 Hpos) as (_ & _ & Hc).
    cbv zeta in Hc. split; [apply Hc; cbn; lia|].
    split; [reflexivity|]. split; [assumption|].
    intros [Hv|Hnil]; [|apply alength_nil_iff in Hnil; contradiction].
    rewrite adjustViewport_settled; cbn; [reflexivity|lia|lia].
Qed.

Lemma enter_on_game_opens_expansions_witness :
  exists s',
    handleInput sampleEnv 30 noOrders CR sampleStart =
      {| after := Some s'; effects := [Render] |} /\
    state s' = ExpansionSelect /\ selectedGameId s' = Some 1 /\
    cursor s' = 0 /\ filterText s' = ""%string /\
    markedExpansions s' = [] /\ scrollOffset s' = 0.
Proof.
  destruct (enter_on_game_opens_expansions sampleEnv 30 noOrders sampleStart
              {| g_id := 1; g_name := "Magic" |} sampleStart_reachable
              eq_refl eq_refl eq_refl)
    as (s' & H1 & H2 & H3 & H4 & H5 & H6 & H7).
  exists s'. repeat split; try assumption.
  apply H7. left. vm_compute. discriminate.
Defined.

(** ** Marks *)

(** C6: in every reachable state each marked id is the id of an
    expansion of the currently selected game, and on the game list
    (outside a visit to the expansion list) nothing is marked. *)
Theorem marked_ids_belong_to_selected_game :
  forall env s,
    reachable env s ->
    (forall id, In id (markedExpansions s) ->
       exists e, In e (expansions env) /\ e_id e = id /\
                 selectedGameId s = Some (e_game_id e)) /\
    (state s = GameSelect -> markedExpansions s = []).
Proof.
  intros env s Hr. exact (reachable_marksScoped env s Hr).
Qed.

Lemma marked_ids_belong_to_selected_game_witness :
  exists s,
    feed sampleEnv 30 noOrders [CR; "j"; " "]%string sampleStart = Some s /\
    markedExpansions s = [11] /\
    (forall id, In id (markedExpansions s) ->
       exists e, In e (expansions sampleEnv) /\ e_id e = id /\
                 selectedGameId s = Some (e_game_id e)) /\
    (state s = GameSelect -> markedExpansions s = []).
Proof.
  eexists. split; [vm_compute; reflexivity|]. split; [reflexivity|].
  apply (marked_ids_belong_to_selected_game sampleEnv).
  apply (feed_reachable sampleEnv 30 noOrders [CR; "j"; " "]%string
           sampleStart).
  - exact sampleStart_reachable.
  - vm_compute. reflexivity.
Defined.

(** ** Cursor bounds *)

(** C4, the failing run: filter the game list down to nothing ([/], [z],
    Enter), then press [j].  [Math.min(maxIdx, cursor + 1)] is taken with
    [maxIdx = -1] and the cursor becomes -1. *)
Theorem down_on_empty_list_makes_cursor_negative :
  exists s,
    feed sampleEnv 30 noOrders ["/"; "z"; CR; "j"]%string sampleStart
      = Some s /\
    filteredGames sampleEnv s = [] /\ state s = GameSelect /\
    cursor s = -1.
Proof.
  eexists. split; [vm_compute; reflexivity|].
  split; [vm_compute; reflexivity|]. split; reflexivity.
Qed.

(** On a list that is not empty the arrow keys do what C4 says: a cursor
    within the list stays within the list. *)
Lemma arrows_stay_in_range env rows fetched key s s' :
  state s <> Results -> filterMode s = false ->
  key = UP \/ key = "k"%string \/ key = DOWN \/ key = "j"%string ->
  0 <= cursor s < shownLength env s ->
  after (handleInput env rows fetched key s) = Some s' ->
  0 <= cursor s' < shownLength env s'.
Proof.
  intros Hs Hf Hk Hc H.
  assert (Hsh : forall c, shownLength env (render env rows (set_cursor c s))
                          = shownLength env s).
  { intros c. destruct (render_frame env rows (set_cursor c s))
      as (E1 & E2 & _ & E4 & _). cbv zeta in *.
    unfold shownLength, filteredGames, filteredExps, gameExpansions.
    rewrite E1, E2, E4. reflexivity. }
  assert (Hrc : forall c, 0 <= c < shownLength env s ->
                  cursor (render env rows (set_cursor c s)) = c).
  { intros c Hcr. unfold render, renderGameSelect, renderExpansionSelect.
    unfold shownLength in Hcr. cbn [state set_cursor].
    destruct (state s) eqn:E; [| |contradiction];
      match goal with
      | |- cursor (adjustViewport ?l ?v ?x) = _ =>
          destruct (adjustViewport_cursor l v x) as (_ & _ & Hk');
            [unfold filteredGames, filteredExps, gameExpansions in *;
             cbn in *; lia|]; cbv zeta in Hk'; rewrite Hk'; cbn;
            [reflexivity|];
            unfold filteredGames, filteredExps, gameExpansions in *;
            cbn in *; lia
      end. }
  unfold handleInput in H.
  destruct (Screen_eqb (state s) Results) eqn:ER;
    [apply Screen_eqb_eq in ER; contradiction|].
  rewrite Hf in H.
  destruct Hk as [-> | [-> | [-> | ->]]]; cbn -[render Z.max Z.min] in H;
    injection H as <-; rewrite Hsh, Hrc; try lia.
  all: unfold shownLength in *; destruct (state s); cbn [Screen_eqb]; lia.
Qed.

(** ** The window after a repaint *)

(** C7, counterexample: on a 6-row terminal no list row is visible;
    the very first paint moves the scroll offset past the cursor. *)
Lemma render_without_rows_scrolls_past_cursor :
  let s' := render sampleEnv 6 initial in
  reachable sampleEnv s' /\ filteredGames sampleEnv s' <> [] /\
  getVisibleRows 6 = 0 /\ cursor s' = 0 /\ scrollOffset s' = 1 /\
  ~ (scrollOffset s' <= cursor s' < scrollOffset s' + getVisibleRows 6).
Proof.
  cbv zeta. split; [apply reach_start|].
  split; [vm_compute; discriminate|].
  repeat split. vm_compute. intros [H _]. apply H. reflexivity.
Qed.

(** *** Empty lists *)

Lemma includes_empty s : JS.includes s "" = true.
Proof. destruct s; reflexivity. Qed.

Lemma toLowerCase_empty (lc : JS.CaseFold) : JS.toLowerCase lc "" = ""%string.
Proof. now rewrite JS.toLowerCase_ascii. Qed.

Lemma nameMatches_empty lc n : nameMatches lc "" n = true.
Proof.
  unfold nameMatches. rewrite toLowerCase_empty. apply includes_empty.
Qed.

Lemma filter_all {A} (f : A -> bool) l :
  (forall x, f x = true) -> filter f l = l.
Proof.
  intros Hf. induction l as [|x l IH]; cbn; [reflexivity|].
  now rewrite Hf, IH.
Qed.

Lemma filter_nil_of_nil {A} (f g : A -> bool) l :
  (forall x, g x = true) -> filter g l = [] -> filter f l = [].
Proof. intros Hg. rewrite (filter_all g l Hg). now intros ->. Qed.

Lemma render_empty env rows s :
  shownLength env s = 0 -> render env rows s = s.
Proof.
  unfold shownLength, render, renderGameSelect, renderExpansionSelect.
  destruct (state s); intros H; try reflexivity;
    now apply adjustViewport_empty.
Qed.

Lemma shownLength_render env rows s :
  shownLength env (render env rows s) = shownLength env s.
Proof.
  destruct (render_frame env rows s) as (E1 & E2 & _ & E4 & _).
  cbv zeta in *.
  unfold shownLength, filteredGames, filteredExps, gameExpansions.
  now rewrite E1, E2, E4.
Qed.

Lemma restsAtZero_render env rows s :
  restsAtZero env s -> restsAtZero env (render env rows s).
Proof.
  unfold restsAtZero. rewrite shownLength_render. intros H H0.
  rewrite (render_empty env rows s H0). auto.
Qed.

Lemma restsAtZero_step env rows fetched key s s' :
  restsAtZero env s ->
  ~ downOnEmptyList env key s ->
  after (handleInput env rows fetched key s) = Some s' ->
  restsAtZero env s'.
Proof.
  intros J Hd H.
  handleInput_branches H;
    try apply restsAtZero_render; try assumption;
    try (intros _; split; reflexivity).
  - (* a key on the results screen *)
    unfold restsAtZero, shownLength in *. cbn in *.
    match goal with Hs : state s = _ |- _ => rewrite Hs in J end. exact J.
  - (* the filter trigger: the whole list is shown again *)
    unfold restsAtZero, shownLength, filteredGames, filteredExps,
      gameExpansions in *. cbn in *. intros H0. apply J.
    destruct (state s); rewrite alength_nil_iff in *;
      eapply filter_nil_of_nil; try exact H0; intros x; apply nameMatches_empty.
  - (* up *)
    unfold restsAtZero in *. intros H0. destruct (J H0) as [Hc Ho].
    cbn. rewrite Hc. auto.
  - (* down on the game list *)
    intros H0. exfalso. apply Hd. repeat split.
    + match goal with
      | Hk : ((key =? DOWN) || (key =? "j"))%string = true |- _ =>
          apply orb_prop in Hk; destruct Hk as [Hk|Hk];
            apply String.eqb_eq in Hk; auto
      end.
    + congruence.
    + assumption.
    + exact H0.
  - (* down on the expansion list *)
    intros H0. exfalso. apply Hd. repeat split.
    + match goal with
      | Hk : ((key =? DOWN) || (key =? "j"))%string = true |- _ =>
          apply orb_prop in Hk; destruct Hk as [Hk|Hk];
            apply String.eqb_eq in Hk; auto
      end.
    + intros Hs.
      match goal with
      | Hr : Screen_eqb (state s) Results = false |- _ =>
          rewrite Hs in Hr; discriminate
      end.
    + assumption.
    + exact H0.
  - (* Enter opens the results *)
    unfold restsAtZero, shownLength in *. cbn in *.
    match goal with Hs : state s = _ |- _ => rewrite Hs in J end. exact J.
  - (* the same while the orders are still requested *)
    unfold restsAtZero, shownLength in *. cbn in *.
    match goal with Hs : state s = _ |- _ => rewrite Hs in J end. exact J.
Qed.

Lemma reachableTidy_restsAtZero env s :
  reachableTidy env s -> restsAtZero env s.
Proof.
  induction 1 as [rows | s rows fetched key s' _ IH Hd Ha].
  - apply restsAtZero_render. intros _. split; reflexivity.
  - eapply restsAtZero_step; eassumption.
Qed.

(** C7, amended: a repaint of a list screen with at least one visible
    row (a terminal of 7 rows or more) leaves
    [scrollOffset <= cursor < scrollOffset + visibleRows] whenever the
    filtered list is not empty, from any state whatever.  On an empty
    filtered list the repaint assigns neither variable, and both are 0 in
    every state reached without a down key on an empty list. *)
Theorem render_keeps_cursor_in_window :
  forall env rows s,
    let s' := render env rows s in
    (state s <> Results -> shownLength env s <> 0 ->
     1 <= getVisibleRows rows ->
     scrollOffset s' <= cursor s' < scrollOffset s' + getVisibleRows rows) /\
    (shownLength env s = 0 ->
     cursor s' = cursor s /\ scrollOffset s' = scrollOffset s) /\
    (reachableTidy env s -> shownLength env s = 0 ->
     cursor s' = 0 /\ scrollOffset s' = 0).
Proof.
  intros env rows s s'. subst s'. split; [|split].
  - intros Hs Hl Hv.
    unfold render, renderGameSelect, renderExpansionSelect.
    unfold shownLength in Hl.
    destruct (state s); [| |contradiction];
      now apply adjustViewport_window.
  - intros H0. now rewrite (render_empty env rows s H0).
  - intros Hr H0. rewrite (render_empty env rows s H0).
    exact (reachableTidy_restsAtZero env s Hr H0).
Qed.

Lemma render_keeps_cursor_in_window_witness :
  let s := {| state := ExpansionSelect; selectedGameId := Some 1;
              cursor := 9; scrollOffset := 5; filterMode := false;
              filterText := ""; markedExpansions := [] |} in
  let z := {| state := GameSelect; selectedGameId := None;
              cursor := 0; scrollOffset := 0; filterMode := true;
              filterText := "z"; markedExpansions := [] |} in
  let s' := render sampleEnv 7 s in
  (scrollOffset s' <= cursor s' < scrollOffset s' + getVisibleRows 7) /\
  (cursor (render sampleEnv 7 (set_filterText "zz" s)) = 9) /\
  (cursor (render sampleEnv 7 z) = 0 /\
   scrollOffset (render sampleEnv 7 z) = 0).
Proof.
  intros s z s'. split; [|split].
  - apply (render_keeps_cursor_in_window sampleEnv 7 s).
    + discriminate.
    + vm_compute. discriminate.
    + vm_compute. discriminate.
  - apply (render_keeps_cursor_in_window sampleEnv 7 (set_filterText "zz" s)).
    vm_compute. reflexivity.
  - apply (render_keeps_cursor_in_window sampleEnv 7 z).
    + apply (tidy_key sampleEnv (set_filterMode true sampleStart) 30
               noOrders "z" z).
      * apply (tidy_key sampleEnv sampleStart 30 noOrders "/").
        -- apply tidy_start.
        -- intros [[H|H] _]; discriminate.
        -- vm_compute. reflexivity.
      * intros [[H|H] _]; discriminate.
      * vm_compute. reflexivity.
    + vm_compute. reflexivity.
Defined.

(** ** Key decoding *)

Lemma startsWith_escape_bracket x c :
  JS.startsWith (String "027" (String x (String c ""))) (String "027" "[") =
  Ascii.eqb x "[".
Proof.
  unfold JS.startsWith. cbn [String.prefix].
  destruct (ascii_dec "027" "027") as [_|N]; [|congruence].
  destruct (ascii_dec "[" x) as [E|N];
    destruct (Ascii.eqb_spec x "["); congruence.
Qed.

(** *** One character *)

Lemma onChar_empty c d :
  Decoder.escapeBuffer d = EmptyString ->
  Decoder.onChar c d =
  if Ascii.eqb c "027"
  then ({| Decoder.escapeBuffer := ESC;
           Decoder.pending := S (Decoder.pending d);
           Decoder.waiting := Decoder.waiting d |}, [])
  else (d, [String c ""]).
Proof. unfold Decoder.onChar. intros ->. reflexivity. Qed.

Lemma onChar_one c d e :
  Decoder.escapeBuffer d = String e EmptyString ->
  Decoder.onChar c d =
  ({| Decoder.escapeBuffer := String e (String c "");
      Decoder.pending := Decoder.pending d;
      Decoder.waiting := Decoder.waiting d |}, []).
Proof. unfold Decoder.onChar. intros ->. reflexivity. Qed.

Lemma onChar_two c d e x :
  Decoder.escapeBuffer d = String e (String x EmptyString) ->
  Decoder.onChar c d =
  ({| Decoder.escapeBuffer := ""; Decoder.pending := Decoder.pending d;
      Decoder.waiting := Decoder.waiting d |},
   if JS.startsWith (String e (String x (String c ""))) (String "027" "[")
   then [String e (String x (String c ""))] else []).
Proof.
  unfold Decoder.onChar. intros ->. cbn [append].
  change (JS.length (String e (String x ""))) with 2.
  change (JS.length (String e (String x (String c "")))) with 3.
  cbn [Z.gtb Z.compare Z.eqb Pos.eqb Z.geb Pos.compare Pos.compare_cont andb].
  destruct (JS.startsWith _ _); reflexivity.
Qed.

(** A character changes neither the timers' past nor the waiting
    handlers. *)
Lemma onChar_waiting c d :
  Decoder.waiting (fst (Decoder.onChar c d)) = Decoder.waiting d.
Proof.
  unfold Decoder.onChar.
  repeat match goal with
         | |- context [if ?b then _ else _] => destruct b
         end; reflexivity.
Qed.

(** *** One chunk of one character *)

Lemma enter_key c : (CR =? String c "")%string = Ascii.eqb c "013".
Proof.
  unfold CR. cbn [String.eqb]. rewrite (Ascii.eqb_sym "013" c).
  now destruct (Ascii.eqb c "013").
Qed.

Lemma step_Byte_silent c d d1 :
  Decoder.onChar c d = (d1, []) ->
  Decoder.step (Decoder.Byte c) d = Some (d1, []).
Proof.
  intros E. unfold Decoder.Byte, Decoder.step, Decoder.handler.
  rewrite E. reflexivity.
Qed.

Lemma step_Byte_sequence c d d1 x :
  Decoder.onChar c d = (d1, [String "027" (String "[" (String x ""))]) ->
  Decoder.step (Decoder.Byte c) d =
  Some (d1, [String "027" (String "[" (String x ""))]).
Proof.
  intros E. unfold Decoder.Byte, Decoder.step, Decoder.handler.
  rewrite E. reflexivity.
Qed.

(** *** Timers that find nothing to do *)



(** *** Escape sequences *)


(** The same when the ESC's own timer wins the race. *)
Lemma escape_sequence_split_by_timer :
  Decoder.run [Decoder.Byte "027"; Decoder.TimerFires;
               Decoder.Byte "["; Decoder.Byte "A"] (Decoder.idle 0) =
  Some (Decoder.idle 0, [ESC; "["; "A"]%string).
Proof. reflexivity. Qed.

(** And an ESC that finds the escape buffer in use is no start of a
    sequence: after ESC and x the sequence ESC, left bracket, A comes out
    as two stray characters. *)
Lemma escape_sequence_after_stray_escape :
  Decoder.run [Decoder.Byte "027"; Decoder.Byte "x";
               Decoder.Byte "027"; Decoder.Byte "["; Decoder.Byte "A"]
    (Decoder.idle 0) =
  Some (Decoder.idle 1, ["["; "A"]%string).
Proof. reflexivity. Qed.

(** *** Chunks without Enter

    No handler stops on them, so only their characters matter, not the
    way these are cut into chunks. *)







(** ** Aggregation *)

(** *** [Array.prototype.sort] with a comparator [descending key] *)

Section Sorting.

Context {A : Type} (key : A -> Z).

Lemma sort_insert_perm x l :
  Permutation (JS.sort_insert (descending key) x l) (x :: l).
Proof.
  induction l as [|y r IH]; cbn; [reflexivity|].
  destruct (descending key x y <=? 0); [reflexivity|].
  rewrite IH. apply perm_swap.
Qed.

Lemma sort_perm l : Permutation (JS.sort (descending key) l) l.
Proof.
  induction l as [|x r IH]; cbn; [reflexivity|].
  rewrite sort_insert_perm. now constructor.
Qed.

Lemma sort_insert_sorted x l :
  StronglySorted (fun a b => key b <= key a) l ->
  StronglySorted (fun a b => key b <= key a)
    (JS.sort_insert (descending key) x l).
Proof.
  induction 1 as [|y r Hs IH Hy]; cbn.
  - constructor; constructor.
  - destruct (Z.leb_spec (descending key x y) 0) as [Hle|Hgt];
      unfold descending in *.
    + constructor; [now constructor|].
      constructor; [lia|].
      eapply Forall_impl; [|exact Hy]. cbn. intros; lia.
    + constructor; [exact IH|].
      eapply Permutation_Forall;
        [symmetry; apply sort_insert_perm|].
      constructor; [lia|exact Hy].
Qed.

Lemma sort_sorted l :
  StronglySorted (fun a b => key b <= key a) (JS.sort (descending key) l).
Proof.
  induction l as [|x r IH]; cbn; [constructor|].
  now apply sort_insert_sorted.
Qed.

Lemma sort_insert_stable c x l :
  filter (keyIs key c) (JS.sort_insert (descending key) x l) =
  filter (keyIs key c) (x :: l).
Proof.
  induction l as [|y r IH]; [reflexivity|].
  cbn [JS.sort_insert].
  destruct (Z.leb_spec (descending key x y) 0) as [Hle|Hgt]; [reflexivity|].
  unfold descending in Hgt. cbn [filter] in *. rewrite IH. unfold keyIs.
  destruct (Z.eqb_spec (key x) c), (Z.eqb_spec (key y) c);
    try reflexivity; lia.
Qed.

Lemma sort_stable c l :
  filter (keyIs key c) (JS.sort (descending key) l) = filter (keyIs key c) l.
Proof.
  induction l as [|x r IH]; [reflexivity|].
  cbn [JS.sort]. rewrite sort_insert_stable. cbn. now rewrite IH.
Qed.


End Sorting.

(** *** The scan as a sum over the matching line items *)

Section SalesFacts.

Import Sales SalesSpec.

Variable lc : JS.CaseFold.



Lemma orString_empty o :
  orString o "" = match o with Some n => n | None => EmptyString end.
Proof. destruct o as [[|c r]|]; reflexivity. Qed.


Lemma scanItems_matching expName l : forall a,
  fold_left (scanItem lc expName) l a =
  fold_left addItem (matching lc expName l) a.
Proof.
  induction l as [|x l IH]; intros a; [reflexivity|].
  cbn. unfold scanItem at 2.
  destruct (itemExpName lc x =? expName)%string; cbn; apply IH.
Qed.

Lemma scan_lineItems expName orders : forall a,
  fold_left (scanOrder lc expName) orders a =
  fold_left (scanItem lc expName) (lineItems orders) a.
Proof.
  induction orders as [|o os IH]; intros a; [reflexivity|].
  cbn. rewrite fold_left_app, IH. unfold scanOrder.
  now destruct (orderLines o).
Qed.

Lemma scan_matching expName orders :
  scan lc expName orders =
  fold_left addItem (matching lc expName (lineItems orders)) acc0.
Proof. unfold scan. now rewrite scan_lineItems, scanItems_matching. Qed.

Lemma sumZ_app l1 l2 : sumZ (l1 ++ l2) = sumZ l1 + sumZ l2.
Proof.
  unfold sumZ. induction l1 as [|x l1 IH]; cbn; [reflexivity|].
  rewrite IH. lia.
Qed.

Lemma addItem_totals l : forall a,
  totalQty (fold_left addItem l a) = totalQty a + sumZ (map qtyOf l) /\
  totalCents (fold_left addItem l a) = totalCents a + sumZ (map revenueOf l).
Proof.
  unfold sumZ. induction l as [|x l IH]; intros a; cbn; [lia|].
  destruct (IH (addItem a x)) as [-> ->]. cbn. lia.
Qed.

(** *** The breakdown map *)






Section Keyed.

Variables f g : string -> Tally.
Variable n : string.
Hypothesis same_elsewhere : forall m, m <> n -> f m = g m.




End Keyed.








End SalesFacts.

(** *** Results per expansion *)

Section SalesClaims.

Import Sales SalesSpec.


Lemma sort_ranks entries :
  rankedByRevenue entries (JS.sort byCentsDesc entries).
Proof.
  split; [|split].
  - apply (sort_perm (fun a : string * Tally => cents (snd a))).
  - apply (sort_sorted (fun a : string * Tally => cents (snd a))).
  - intros c. apply (sort_stable (fun a : string * Tally => cents (snd a))).
Qed.


Lemma lineItems_app os1 os2 :
  lineItems (os1 ++ os2) = lineItems os1 ++ lineItems os2.
Proof. apply flat_map_app. Qed.

Lemma matching_app lc nm l1 l2 :
  matching lc nm (l1 ++ l2) = matching lc nm l1 ++ matching lc nm l2.
Proof. apply filter_app. Qed.


Lemma scan_totals lc expName orders :
  totalQty (scan lc expName orders) =
    sumZ (map qtyOf (matching lc expName (lineItems orders))) /\
  totalCents (scan lc expName orders) =
    sumZ (map revenueOf (matching lc expName (lineItems orders))).
Proof.
  rewrite scan_matching.
  destruct (addItem_totals (matching lc expName (lineItems orders)) acc0)
    as [-> ->].
  cbn. split; reflexivity.
Qed.






End SalesClaims.

(** ** The scenarios of the specification, run on the embedding *)

(** Scenario A, second half: expansion 11 has no sales. *)
Example scenario_A_other_expansion :
  let r := Sales.resultFor sampleEnv
             [SalesSpec.orderOf [SalesSpec.cardA]] 11 in
  Sales.r_totalQty r = 0 /\ Sales.r_totalCents r = 0 /\
  Sales.top5 r = [].
Proof. cbv zeta. repeat split. Qed.

(** Scenario B: the filter text "mag" keeps Magic only, cursor on row 0. *)
Example scenario_B_filter :
  let env := {| games := [ {| g_id := 1; g_name := "Magic" |};
                           {| g_id := 2; g_name := "Pokemon" |} ];
                expansions := []; caseFold := JS.asciiFold |} in
  exists s,
    feed env 30 noOrders ["j"; "/"; "m"; "a"; "g"]%string
      (render env 30 initial) = Some s /\
    map g_name (filteredGames env s) = ["Magic"%string] /\ cursor s = 0.
Proof.
  cbv zeta. eexists. split; [vm_compute; reflexivity|].
  split; reflexivity.
Qed.

(** Scenario C: marks do not survive the way back to the game list. *)
Example scenario_C_marks_cleared :
  exists s1 s2,
    feed sampleEnv 30 noOrders [CR; " "; "j"; " "]%string sampleStart
      = Some s1 /\
    markedExpansions s1 = [10; 11] /\
    feed sampleEnv 30 noOrders [ESC; CR] s1 = Some s2 /\
    state s2 = ExpansionSelect /\ markedExpansions s2 = [].
Proof.
  eexists. eexists. split; [vm_compute; reflexivity|].
  split; [reflexivity|]. split; [vm_compute; reflexivity|].
  split; reflexivity.
Qed.

(** * Further properties of the navigation *)

(** ** What ends the program *)

(** [handleInput] ends the program in two ways only: by the key [q],
    with status 0 and the cursor shown again, on the results screen or
    outside filter sub-mode; and by Enter on the expansion list with
    something marked, outside filter sub-mode, when a request for the
    orders fails, with status 1.  No other key and no other state ends
    it, and in those two cases it always ends. *)
Theorem exit_only_by_quit_or_failed_request :
  forall env rows fetched key s,
    let o := handleInput env rows fetched key s in
    (after o = None <->
       (key = "q"%string /\ (state s = Results \/ filterMode s = false)) \/
       (key = CR /\ state s = ExpansionSelect /\ filterMode s = false /\
        markedExpansions s <> [] /\ fetched = Orders.Exit1)) /\
    (after o = None -> key = "q"%string ->
     effects o = [ShowCursor; ProcessExit 0]) /\
    (after o = None -> key = CR -> effects o = [ProcessExit 1]).
Proof.
  intros env rows fetched key s o.
  assert (Hfwd : after o = None ->
            (key = "q"%string /\ (state s = Results \/ filterMode s = false)
             /\ effects o = [ShowCursor; ProcessExit 0]) \/
            (key = CR /\ state s = ExpansionSelect /\ filterMode s = false /\
             markedExpansions s <> [] /\ fetched = Orders.Exit1 /\
             effects o = [ProcessExit 1])).
  { subst o. intros H. unfold handleInput in *.
    repeat match type of H with
           | context [if ?c then _ else _] => destruct c eqn:?
           | context [match ?x with Some _ => _ | None => _ end] =>
               destruct x eqn:?
           | context [match ?x with Orders.Exit1 => _ | _ => _ end] =>
               destruct x eqn:?
           end;
      unfold exits, requestFailed, rendered, ignored in H; cbn [after] in H;
      try discriminate;
      repeat match goal with
             | E : (_ && _)%bool = true |- _ =>
                 apply andb_prop in E; destruct E
             | E : (_ =? _)%string = true |- _ => apply String.eqb_eq in E
             | E : Screen_eqb _ _ = true |- _ => apply Screen_eqb_eq in E
             end.
    - left. auto.
    - left. auto.
    - right. repeat split; auto.
      intros Hm.
      match goal with
      | E : (JS.Set_size _ >? 0) = true |- _ => rewrite Hm in E; discriminate E
      end. }
  split; [split|split].
  - intros H. destruct (Hfwd H) as [(? & ? & _)|(? & ? & ? & ? & ? & _)];
      [left|right]; auto.
  - subst o. unfold handleInput.
    intros [(-> & [Hs|Hf])|(-> & Hs & Hf & Hm & ->)].
    + rewrite Hs. reflexivity.
    + destruct (Screen_eqb (state s) Results); [reflexivity|].
      rewrite Hf. reflexivity.
    + rewrite Hs, Hf. cbn.
      destruct (markedExpansions s); [contradiction|reflexivity].
  - intros H Hk. destruct (Hfwd H) as [(_ & _ & E)|(E & _)]; [exact E|].
    rewrite Hk in E. discriminate E.
  - intros H Hk. destruct (Hfwd H) as [(E & _)|(_ & _ & _ & _ & _ & E)];
      [|exact E].
    rewrite Hk in E. discriminate E.
Qed.

(** Enter with expansion 10 marked: without a fresh cache and with a
    server that refuses page 1 the program ends with status 1; with the
    orders at hand it goes on. *)
Lemma exit_only_by_quit_or_failed_request_witness :
  let s := {| state := ExpansionSelect; selectedGameId := Some 1;
              cursor := 0; scrollOffset := 0; filterMode := false;
              filterText := ""; markedExpansions := [10] |} in
  let refused :=
    Orders.fetchAllOrders None (fun _ => Orders.NotOk) (Some 200) 1 in
  after (handleInput sampleEnv 30 refused CR s) = None /\
  effects (handleInput sampleEnv 30 refused CR s) = [ProcessExit 1] /\
  after (handleInput sampleEnv 30 noOrders CR s) <> None.
Proof.
  intros s refused.
  destruct (exit_only_by_quit_or_failed_request sampleEnv 30 refused CR s)
    as ([_ H1] & _ & H2).
  destruct (exit_only_by_quit_or_failed_request sampleEnv 30 noOrders CR s)
    as ([H3 _] & _).
  cbv zeta in *.
  assert (H : after (handleInput sampleEnv 30 refused CR s) = None).
  { apply H1. right. repeat split; discriminate. }
  split; [exact H|]. split; [exact (H2 H eq_refl)|].
  intros C. destruct (H3 C) as [(E & _)|(_ & _ & _ & _ & E)]; discriminate.
Defined.

(** ** What touches the marks *)

(** The marks change only by Space or Escape on the expansion list
    outside filter sub-mode; in particular a space typed into the filter
    marks nothing. *)
Theorem marks_change_only_by_space_or_escape :
  forall env rows fetched key s s',
    after (handleInput env rows fetched key s) = Some s' ->
    markedExpansions s' <> markedExpansions s ->
    state s = ExpansionSelect /\ filterMode s = false /\
    (key = " "%string \/ key = ESC).
Proof.
  intros env rows fetched key s s' H Hne. unfold handleInput in H.
  repeat match type of H with
         | context [if ?c then _ else _] => destruct c eqn:?
         | context [match ?x with Some _ => _ | None => _ end] =>
             destruct x eqn:?
         | context [match ?x with Orders.Exit1 => _ | _ => _ end] =>
             destruct x eqn:?
         end;
    unfold exits, requestFailed, rendered, ignored in H; cbn [after] in H;
    try discriminate; injection H as <-;
    try (exfalso; apply Hne;
         match goal with
         | |- markedExpansions (render ?e ?r ?x) = _ =>
             destruct (render_frame e r x) as (_ & _ & _ & _ & ->)
         | _ => idtac
         end; reflexivity);
    repeat match goal with
           | E : (_ && _)%bool = true |- _ => apply andb_prop in E; destruct E
           | E : Screen_eqb _ _ = true |- _ => apply Screen_eqb_eq in E
           | E : (_ =? _)%string = true |- _ => apply String.eqb_eq in E
           end; auto.
Qed.

Lemma marks_change_only_by_space_or_escape_witness :
  state (set_state ExpansionSelect (set_selectedGameId (Some 1) initial))
    = ExpansionSelect /\
  filterMode (set_state ExpansionSelect (set_selectedGameId (Some 1) initial))
    = false /\
  (" "%string = " "%string \/ " "%string = ESC).
Proof.
  apply (marks_change_only_by_space_or_escape sampleEnv 30 noOrders " "
           (set_state ExpansionSelect (set_selectedGameId (Some 1) initial))
           (set_markedExpansions [10]
              (set_state ExpansionSelect
                 (set_selectedGameId (Some 1) initial)))).
  - vm_compute. reflexivity.
  - discriminate.
Defined.

(** ** Marking is a toggle *)

Lemma Set_delete_absent m x : JS.Set_has m x = false -> JS.Set_delete m x = m.
Proof.
  unfold JS.Set_has, JS.Set_delete. induction m as [|y m IH]; cbn;
    [reflexivity|].
  rewrite (Z.eqb_sym x y). destruct (y =? x); cbn; [discriminate|].
  intros H. now rewrite IH.
Qed.

Lemma Set_has_delete m x : JS.Set_has (JS.Set_delete m x) x = false.
Proof.
  unfold JS.Set_has, JS.Set_delete. induction m as [|y m IH]; cbn;
    [reflexivity|].
  destruct (Z.eqb_spec y x) as [->|Hne]; cbn; [exact IH|].
  rewrite IH. destruct (Z.eqb_spec x y); [congruence|reflexivity].
Qed.

Lemma Set_has_add m x : JS.Set_has (JS.Set_add m x) x = true.
Proof.
  unfold JS.Set_add. destruct (JS.Set_has m x) eqn:E; [exact E|].
  unfold JS.Set_has. rewrite existsb_app. cbn. rewrite Z.eqb_refl.
  now rewrite orb_true_r.
Qed.

Lemma Set_delete_add m x :
  JS.Set_has m x = false -> JS.Set_delete (JS.Set_add m x) x = m.
Proof.
  intros H. unfold JS.Set_add. rewrite H. unfold JS.Set_delete.
  rewrite filter_app. cbn. rewrite Z.eqb_refl. cbn. rewrite app_nil_r.
  now apply Set_delete_absent.
Qed.

Lemma index_Some_range {A} (l : list A) i x :
  JS.index l i = Some x -> 0 <= i < JS.alength l.
Proof.
  unfold JS.index, JS.alength. destruct (Z.ltb_spec i 0); [discriminate|].
  intros Hx. assert (Hn : nth_error l (Z.to_nat i) <> None) by congruence.
  apply nth_error_Some in Hn. lia.
Qed.

(** Changing the marks and repainting keeps the row under the cursor. *)
Lemma mark_keeps_highlight env rows s m e :
  state s = ExpansionSelect ->
  JS.index (filteredExps env s) (cursor s) = Some e ->
  let s1 := render env rows (set_markedExpansions m s) in
  state s1 = ExpansionSelect /\ filterMode s1 = filterMode s /\
  markedExpansions s1 = m /\
  JS.index (filteredExps env s1) (cursor s1) = Some e.
Proof.
  intros Hs He s1. subst s1.
  destruct (render_frame env rows (set_markedExpansions m s))
    as (E1 & E2 & E3 & E4 & E5). cbv zeta in *.
  rewrite E1, E3, E5. cbn. repeat split; try assumption.
  assert (Hl : filteredExps env (render env rows (set_markedExpansions m s))
               = filteredExps env s).
  { unfold filteredExps, gameExpansions. now rewrite E2, E4. }
  rewrite Hl. pose proof (index_Some_range _ _ _ He) as Hr.
  unfold render. cbn [state set_markedExpansions]. rewrite Hs.
  unfold renderExpansionSelect.
  destruct (adjustViewport_cursor
              (JS.alength (filteredExps env (set_markedExpansions m s)))
              (getVisibleRows rows) (set_markedExpansions m s))
    as (_ & _ & Hc).
  - change (filteredExps env (set_markedExpansions m s))
      with (filteredExps env s). lia.
  - cbv zeta in Hc. rewrite Hc; [exact He|].
    change (filteredExps env (set_markedExpansions m s))
      with (filteredExps env s). cbn. lia.
Qed.

(** Space twice on the same row.  On a row that was not marked the
    marks are exactly as before.  On a row that was marked the same ids
    are marked again, but the id of the row is now the newest mark, so
    its result is listed last. *)
Theorem space_twice_restores_marks :
  forall env rows fetched s e,
    state s = ExpansionSelect -> filterMode s = false ->
    JS.index (filteredExps env s) (cursor s) = Some e ->
    exists s2,
      feed env rows fetched [" "; " "]%string s = Some s2 /\
      (JS.Set_has (markedExpansions s) (e_id e) = false ->
       markedExpansions s2 = markedExpansions s) /\
      (JS.Set_has (markedExpansions s) (e_id e) = true ->
       markedExpansions s2 =
         JS.Set_delete (markedExpansions s) (e_id e) ++ [e_id e]).
Proof.
  intros env rows fetched s e Hs Hf He.
  assert (Hstep : forall t, state t = ExpansionSelect -> filterMode t = false ->
            JS.index (filteredExps env t) (cursor t) = Some e ->
            after (handleInput env rows fetched " " t) =
            Some (render env rows
                    (set_markedExpansions
                       (if JS.Set_has (markedExpansions t) (e_id e)
                        then JS.Set_delete (markedExpansions t) (e_id e)
                        else JS.Set_add (markedExpansions t) (e_id e)) t))).
  { intros t Ht Hft Het. unfold handleInput. rewrite Ht, Hft, Het.
    cbn -[render]. now destruct (JS.Set_has (markedExpansions t) (e_id e)). }
  cbn [feed]. rewrite (Hstep s Hs Hf He).
  match goal with
  | |- context [render env rows (set_markedExpansions ?m s)] =>
      destruct (mark_keeps_highlight env rows s m e Hs He)
        as (H1 & H2 & H3 & H4); set (s1 := render env rows
                                             (set_markedExpansions m s)) in *
  end.
  cbv zeta in *. rewrite Hf in H2.
  rewrite (Hstep s1 H1 H2 H4). eexists. split; [reflexivity|].
  destruct (render_frame env rows
              (set_markedExpansions
                 (if JS.Set_has (markedExpansions s1) (e_id e)
                  then JS.Set_delete (markedExpansions s1) (e_id e)
                  else JS.Set_add (markedExpansions s1) (e_id e)) s1))
    as (_ & _ & _ & _ & E5).
  cbv zeta in E5. rewrite E5. cbn [markedExpansions set_markedExpansions].
  rewrite H3. split; intros Hm; rewrite Hm.
  - rewrite Set_has_add. now apply Set_delete_add.
  - rewrite Set_has_delete. unfold JS.Set_add. now rewrite Set_has_delete.
Qed.

Lemma space_twice_restores_marks_witness :
  exists s2,
    feed sampleEnv 30 noOrders [" "; " "]%string
      {| state := ExpansionSelect; selectedGameId := Some 1; cursor := 0;
         scrollOffset := 0; filterMode := false; filterText := "";
         markedExpansions := [10; 11] |} = Some s2 /\
    markedExpansions s2 = [11; 10].
Proof.
  destruct (space_twice_restores_marks sampleEnv 30 noOrders
              {| state := ExpansionSelect; selectedGameId := Some 1;
                 cursor := 0; scrollOffset := 0; filterMode := false;
                 filterText := ""; markedExpansions := [10; 11] |}
              {| e_id := 10; e_game_id := 1; e_name := "Alpha" |}
              eq_refl eq_refl eq_refl) as (s2 & H1 & _ & H3).
  exists s2. split; [exact H1|]. apply H3. reflexivity.
Defined.

(** ** Editing the filter text *)

Lemma slice_0_m1_snoc t c : JS.slice_0_m1 (t ++ String c "") = t.
Proof.
  induction t as [|d t IH]; [reflexivity|].
  cbn [append JS.slice_0_m1]. rewrite IH.
  destruct t; reflexivity.
Qed.

Lemma lowerAscii_app a b :
  JS.lowerAscii (a ++ b) = (JS.lowerAscii a ++ JS.lowerAscii b)%string.
Proof. induction a as [|c a IH]; cbn; [reflexivity|]. now rewrite IH. Qed.

Lemma isAscii_app a b :
  JS.isAscii (a ++ b) = (JS.isAscii a && JS.isAscii b)%bool.
Proof.
  induction a as [|c a IH]; [reflexivity|].
  cbn [append JS.isAscii]. rewrite IH. apply andb_assoc.
Qed.

(** On ASCII text the lower case of a longer text begins with the lower
    case of the shorter one. *)
Lemma toLowerCase_app (lc : JS.CaseFold) a b :
  JS.isAscii a = true -> JS.isAscii b = true ->
  JS.toLowerCase lc (a ++ b) =
  (JS.toLowerCase lc a ++ JS.toLowerCase lc b)%string.
Proof.
  intros Ha Hb.
  rewrite !JS.toLowerCase_ascii, ?lowerAscii_app; try assumption;
    try reflexivity.
  rewrite isAscii_app, Ha, Hb. reflexivity.
Qed.

Lemma prefix_app_l a b : forall s,
  String.prefix (a ++ b) s = true -> String.prefix a s = true.
Proof.
  induction a as [|c a IH]; intros s H; [now destruct s|].
  destruct s as [|d s]; cbn in *; [discriminate|].
  destruct (ascii_dec c d); [|discriminate]. now apply IH.
Qed.

Lemma includes_app_l s : forall a b,
  JS.includes s (a ++ b) = true -> JS.includes s a = true.
Proof.
  induction s as [|d s IH]; intros a b H; cbn [JS.includes] in *.
  - now apply prefix_app_l in H.
  - apply orb_prop in H. apply orb_true_iff. destruct H as [H|H].
    + left. now apply prefix_app_l in H.
    + right. now apply IH in H.
Qed.

Lemma nameMatches_app_l lc t k n :
  JS.isAscii t = true -> JS.isAscii k = true ->
  nameMatches lc (t ++ k) n = true -> nameMatches lc t n = true.
Proof.
  intros Ht Hk. unfold nameMatches.
  rewrite toLowerCase_app by assumption. apply includes_app_l.
Qed.

Lemma filter_narrow {A} (f g : A -> bool) l :
  (forall x, g x = true -> f x = true) ->
  filter g l = filter g (filter f l).
Proof.
  intros Hgf. induction l as [|x l IH]; cbn; [reflexivity|].
  destruct (g x) eqn:Eg.
  - rewrite (Hgf x Eg). cbn. rewrite Eg. now f_equal.
  - destruct (f x); cbn; [rewrite Eg|]; exact IH.
Qed.

(** Typing more into an ASCII filter text only narrows: the list for
    the longer text is the list for the shorter text with some entries
    dropped, the others in the same order, on both list screens and
    whatever the names are.  (Beyond ASCII the lower case of the longer
    text need not begin with that of the shorter one, and an entry can
    come back.) *)
Theorem longer_filter_narrows :
  forall env s k,
    JS.isAscii (filterText s) = true -> JS.isAscii k = true ->
    let s' := set_filterText (filterText s ++ k) s in
    filteredGames env s' =
      filter (fun g => nameMatches (caseFold env) (filterText s') (g_name g))
        (filteredGames env s) /\
    filteredExps env s' =
      filter (fun e => nameMatches (caseFold env) (filterText s') (e_name e))
        (filteredExps env s) /\
    incl (filteredGames env s') (filteredGames env s) /\
    incl (filteredExps env s') (filteredExps env s).
Proof.
  intros env s k Hs Hk s'. subst s'.
  assert (HG : filteredGames env (set_filterText (filterText s ++ k) s) =
               filter (fun g => nameMatches (caseFold env)
                                  (filterText s ++ k) (g_name g))
                 (filteredGames env s)).
  { unfold filteredGames. cbn. apply filter_narrow.
    intros g. now apply nameMatches_app_l. }
  assert (HE : filteredExps env (set_filterText (filterText s ++ k) s) =
               filter (fun e => nameMatches (caseFold env)
                                  (filterText s ++ k) (e_name e))
                 (filteredExps env s)).
  { unfold filteredExps, gameExpansions. cbn. apply filter_narrow.
    intros e. now apply nameMatches_app_l. }
  split; [exact HG|]. split; [exact HE|]. split.
  - rewrite HG. apply incl_filter.
  - rewrite HE. apply incl_filter.
Qed.

(** Of Magic and Pokemon the text m keeps both and ma only Magic. *)
Lemma longer_filter_narrows_witness :
  map g_name (filteredGames twoGames (set_filterText "m" initial)) =
    ["Magic"; "Pokemon"]%string /\
  map g_name (filteredGames twoGames (set_filterText "ma" initial)) =
    ["Magic"]%string /\
  incl (filteredGames twoGames (set_filterText "ma" initial))
    (filteredGames twoGames (set_filterText "m" initial)).
Proof.
  destruct (longer_filter_narrows twoGames (set_filterText "m" initial) "a"
              eq_refl eq_refl) as (_ & _ & H & _).
  split; [reflexivity|]. split; [reflexivity|]. exact H.
Defined.

Lemma render_cursor_zero env rows s :
  cursor s = 0 -> cursor (render env rows s) = 0.
Proof.
  intros Hc. unfold render, renderGameSelect, renderExpansionSelect.
  destruct (state s); [| |exact Hc];
    unfold adjustViewport;
    repeat match goal with
           | |- context [if ?c then _ else _] => destruct c eqn:?; cbn
           end; zbool; cbn in *; lia.
Qed.

Lemma printable_not_control c :
  (" " <=? String c "")%string = true ->
  (String c "" =? ESC)%string = false /\
  (String c "" =? CR)%string = false /\
  (String c "" =? BS)%string = false.
Proof.
  destruct c as [[] [] [] [] [] [] [] []]; cbn; intros H;
    try discriminate; repeat split.
Qed.

(** In filter sub-mode a printable character followed by Backspace
    leaves the filter text as it was; the character is appended as typed
    and the cursor is on row 0 after either key. *)
Theorem type_then_backspace_restores_filter :
  forall env rows fetched s c,
    state s <> Results -> filterMode s = true ->
    (" " <=? String c "")%string = true -> String c "" <> DEL ->
    exists s1 s2,
      after (handleInput env rows fetched (String c "") s) = Some s1 /\
      filterText s1 = (filterText s ++ String c "")%string /\
      cursor s1 = 0 /\
      after (handleInput env rows fetched DEL s1) = Some s2 /\
      filterText s2 = filterText s /\ cursor s2 = 0 /\
      filterMode s2 = true /\ state s2 = state s /\
      markedExpansions s2 = markedExpansions s.
Proof.
  intros env rows fetched s c Hs Hf Hp Hd.
  destruct (printable_not_control c Hp) as (Hesc & Hcr & Hbs).
  assert (Hdel : (String c "" =? DEL)%string = false)
    by (now apply String.eqb_neq).
  assert (Hres : forall t, state t = state s ->
                   Screen_eqb (state t) Results = false).
  { intros t ->. destruct (state s); try reflexivity. contradiction. }
  set (t1 := set_scrollOffset 0 (set_cursor 0
               (set_filterText (filterText s ++ String c "") s))).
  assert (H1 : after (handleInput env rows fetched (String c "") s) =
               Some (render env rows t1)).
  { unfold handleInput. rewrite (Hres s eq_refl), Hf, Hesc, Hcr, Hbs, Hdel.
    cbn [orb]. rewrite Hp. reflexivity. }
  destruct (render_frame env rows t1) as (A1 & A2 & A3 & A4 & A5).
  cbv zeta in *. cbn in A1, A3, A4, A5.
  set (s1 := render env rows t1) in *.
  set (t2 := set_scrollOffset 0 (set_cursor 0
               (set_filterText (JS.slice_0_m1 (filterText s1)) s1))).
  assert (H2 : after (handleInput env rows fetched DEL s1) =
               Some (render env rows t2)).
  { unfold handleInput. rewrite (Hres s1 A1), A3, Hf. reflexivity. }
  destruct (render_frame env rows t2) as (B1 & B2 & B3 & B4 & B5).
  cbv zeta in *. cbn in B1, B3, B4, B5.
  exists s1, (render env rows t2).
  split; [exact H1|]. split; [exact A4|].
  split; [apply render_cursor_zero; reflexivity|].
  split; [exact H2|].
  rewrite B4, B1, B3, B5, A4, A1, A3, A5, slice_0_m1_snoc.
  repeat split; try assumption.
  apply render_cursor_zero; reflexivity.
Qed.

Lemma type_then_backspace_restores_filter_witness :
  exists s1 s2,
    after (handleInput sampleEnv 30 noOrders "q"
             (set_filterText "ma" (set_filterMode true initial))) = Some s1 /\
    filterText s1 = "maq"%string /\ cursor s1 = 0 /\
    after (handleInput sampleEnv 30 noOrders DEL s1) = Some s2 /\
    filterText s2 = "ma"%string /\ cursor s2 = 0 /\
    filterMode s2 = true /\ state s2 = GameSelect /\
    markedExpansions s2 = [].
Proof.
  apply (type_then_backspace_restores_filter sampleEnv 30 noOrders
           (set_filterText "ma" (set_filterMode true initial)) "q").
  - discriminate.
  - reflexivity.
  - reflexivity.
  - discriminate.
Defined.

(** ** Screens, marks and the selected game *)

Lemma screenConsistent_render env rows s :
  screenConsistent env s -> screenConsistent env (render env rows s).
Proof.
  destruct (render_frame env rows s) as (E1 & E2 & E3 & _ & E5).
  unfold screenConsistent. cbv zeta in *. rewrite E1, E2, E3, E5. trivial.
Qed.

Lemma Set_add_NoDup m x : NoDup m -> NoDup (JS.Set_add m x).
Proof.
  intros Hm. unfold JS.Set_add. destruct (JS.Set_has m x) eqn:E; [exact Hm|].
  apply NoDup_app; try assumption.
  - constructor; [intros []|constructor].
  - intros y Hy [Exy|[]]. subst y.
    assert (JS.Set_has m x = true); [|congruence].
    unfold JS.Set_has. apply existsb_exists. exists x.
    split; [exact Hy|apply Z.eqb_refl].
Qed.

Lemma screenConsistent_step env rows fetched key s s' :
  screenConsistent env s ->
  after (handleInput env rows fetched key s) = Some s' ->
  screenConsistent env s'.
Proof.
  intros (HR & HG & HN) H.
  handleInput_branches H;
    try apply screenConsistent_render;
    (split; [|split]); cbn;
    try match goal with
        | |- NoDup _ =>
            first [ assumption | constructor | now apply NoDup_filter
                  | now apply Set_add_NoDup ]
        end;
    try match goal with
        | Hn : Screen_eqb (state s) Results = false
          |- state s = Results -> _ =>
            let C := fresh in intros C; rewrite C in Hn; discriminate
        end;
    try congruence; try exact HG;
    try (intros _; apply HG; congruence).
  - (* Enter on a game *)
    intros _.
    match goal with
    | Hi : JS.index _ _ = Some ?g |- _ =>
        apply index_In in Hi; unfold filteredGames in Hi;
          apply filter_In in Hi; destruct Hi; exists g; auto
    end.
  - (* Enter opens the results *)
    intros _. split; [|assumption].
    match goal with
    | Hm : (JS.Set_size _ >? 0) = true |- _ =>
        unfold JS.Set_size, JS.alength in Hm; intros E; rewrite E in Hm;
          discriminate
    end.
  - (* the same while the orders are still requested *)
    intros _. split; [|assumption].
    match goal with
    | Hm : (JS.Set_size _ >? 0) = true |- _ =>
        unfold JS.Set_size, JS.alength in Hm; intros E; rewrite E in Hm;
          discriminate
    end.
Qed.

(** In every reachable state: the results screen implies that an
    expansion is marked and that filter sub-mode is off; off the game
    list the selected game is a game of the list; no id is marked
    twice. *)
Theorem reachable_screens_are_consistent :
  forall env s,
    reachable env s ->
    (state s = Results ->
     markedExpansions s <> [] /\ filterMode s = false) /\
    (state s <> GameSelect ->
     exists g, In g (games env) /\ selectedGameId s = Some (g_id g)) /\
    NoDup (markedExpansions s).
Proof.
  intros env s Hr. change (screenConsistent env s).
  induction Hr as [rows | s rows fetched key s' _ IH Ha].
  - apply screenConsistent_render. split; [|split]; cbn.
    + discriminate.
    + congruence.
    + constructor.
  - eapply screenConsistent_step; eassumption.
Qed.

Lemma reachable_screens_are_consistent_witness :
  exists s,
    feed sampleEnv 30 noOrders [CR; " "; CR]%string sampleStart = Some s /\
    state s = Results /\
    markedExpansions s <> [] /\ filterMode s = false.
Proof.
  eexists. split; [vm_compute; reflexivity|]. split; [reflexivity|].
  apply (reachable_screens_are_consistent sampleEnv).
  - apply (feed_reachable sampleEnv 30 noOrders [CR; " "; CR]%string
             sampleStart).
    + exact sampleStart_reachable.
    + vm_compute. reflexivity.
  - reflexivity.
Defined.

(** ** The cursor stays on the list *)

Lemma adjustViewport_nonneg len visibleRows s :
  0 <= cursor s -> 0 <= scrollOffset s ->
  0 <= cursor (adjustViewport len visibleRows s) /\
  0 <= scrollOffset (adjustViewport len visibleRows s).
Proof.
  intros Hc Ho. unfold adjustViewport.
  destruct (len =? 0); [now split|].
  destruct (cursor s >=? len) eqn:Hge; cbn;
    repeat match goal with
           | |- context [if ?c then _ else _] => destruct c eqn:?; cbn
           end; zbool; cbn in *; lia.
Qed.

Lemma shownLength_nonneg env s : 0 <= shownLength env s.
Proof. unfold shownLength, JS.alength. destruct (state s); lia. Qed.

Lemma cursorInList_render env rows s :
  cursorInList env s -> cursorInList env (render env rows s).
Proof.
  intros (Hc & Ho & H0 & Hlt).
  destruct (Z.eq_dec (shownLength env s) 0) as [E|E].
  - rewrite (render_empty env rows s E). repeat split; tauto.
  - specialize (Hlt E). unfold cursorInList. rewrite shownLength_render.
    assert (Hr : cursor (render env rows s) = cursor s /\
                 0 <= scrollOffset (render env rows s)).
    { unfold render, renderGameSelect, renderExpansionSelect.
      unfold shownLength in *.
      destruct (state s); [| |split; [reflexivity|exact Ho]];
        match goal with
        | |- context [adjustViewport ?l ?v s] =>
            destruct (adjustViewport_cursor l v s) as (_ & _ & Hk);
              [lia|]; destruct (adjustViewport_nonneg l v s Hc Ho) as [_ Hn];
              cbv zeta in Hk; rewrite (Hk Hlt); split; [reflexivity|exact Hn]
        end. }
    destruct Hr as [-> Hn]. repeat split; try assumption; try tauto.
Qed.

Lemma alength_filter_le {A} (f : A -> bool) l :
  JS.alength (filter f l) <= JS.alength l.
Proof.
  unfold JS.alength.
  induction l as [|x l IH]; cbn [filter List.length]; [lia|].
  destruct (f x); cbn [List.length]; lia.
Qed.

Lemma cursorInList_zero env s :
  cursor s = 0 -> scrollOffset s = 0 -> cursorInList env s.
Proof.
  intros Hc Ho. pose proof (shownLength_nonneg env s).
  unfold cursorInList. rewrite Hc, Ho. repeat split; lia.
Qed.

Lemma shownLength_unfiltered env s :
  shownLength env s <=
  shownLength env (set_filterText "" (set_filterMode true s)).
Proof.
  unfold shownLength, filteredGames, filteredExps. cbn.
  destruct (state s);
    rewrite (filter_all (fun x => nameMatches _ "" _));
    try apply alength_filter_le; intros x; apply nameMatches_empty.
Qed.

Lemma cursorInList_step env rows fetched key s s' :
  cursorInList env s ->
  ~ downOnEmptyList env key s ->
  after (handleInput env rows fetched key s) = Some s' ->
  cursorInList env s'.
Proof.
  intros J Hd H.
  handleInput_branches H;
    try apply cursorInList_render; try assumption;
    try (apply cursorInList_zero; reflexivity).
  - (* a key on the results screen *)
    unfold cursorInList, shownLength in *. cbn in *.
    match goal with Hs : state s = _ |- _ => rewrite Hs in J end. exact J.
  - (* the filter trigger *)
    pose proof (shownLength_unfiltered env s) as Hle.
    pose proof (shownLength_nonneg env s) as H0.
    destruct J as (Hc & Ho & Hz & Hlt). unfold cursorInList.
    change (cursor (set_filterText "" (set_filterMode true s)))
      with (cursor s).
    change (scrollOffset (set_filterText "" (set_filterMode true s)))
      with (scrollOffset s).
    destruct (Z.eq_dec (shownLength env s) 0) as [E|E].
    + destruct (Hz E) as [-> ->]. repeat split; lia.
    + specialize (Hlt E). repeat split; lia.
  - (* up *)
    destruct J as (Hc & Ho & Hz & Hlt). unfold cursorInList.
    change (shownLength env (set_cursor (Z.max 0 (cursor s - 1)) s))
      with (shownLength env s). cbn.
    repeat split; try lia; intros E;
      try (destruct (Hz E)); try (specialize (Hlt E)); lia.
  - (* down on the game list *)
    destruct J as (Hc & Ho & Hz & Hlt). unfold cursorInList.
    match goal with
    | |- context [set_cursor ?v s] =>
        change (shownLength env (set_cursor v s)) with (shownLength env s)
    end.
    assert (Hl : shownLength env s = JS.alength (filteredGames env s)).
    { unfold shownLength.
      match goal with Hs : state s = _ |- _ => now rewrite Hs end. }
    assert (E : shownLength env s <> 0).
    { intros E. apply Hd. repeat split; try assumption.
      - match goal with
        | Hk : ((key =? DOWN) || (key =? "j"))%string = true |- _ =>
            apply orb_prop in Hk; destruct Hk as [Hk|Hk];
              apply String.eqb_eq in Hk; auto
        end.
      - congruence. }
    specialize (Hlt E). pose proof (shownLength_nonneg env s). cbn.
    repeat split; lia.
  - (* down on the expansion list *)
    destruct J as (Hc & Ho & Hz & Hlt). unfold cursorInList.
    match goal with
    | |- context [set_cursor ?v s] =>
        change (shownLength env (set_cursor v s)) with (shownLength env s)
    end.
    assert (Hl : shownLength env s = JS.alength (filteredExps env s)).
    { unfold shownLength. destruct (state s); try reflexivity. discriminate. }
    assert (E : shownLength env s <> 0).
    { intros E. apply Hd. repeat split; try assumption.
      - match goal with
        | Hk : ((key =? DOWN) || (key =? "j"))%string = true |- _ =>
            apply orb_prop in Hk; destruct Hk as [Hk|Hk];
              apply String.eqb_eq in Hk; auto
        end.
      - intros Hs.
        match goal with
        | Hr : Screen_eqb (state s) Results = false |- _ =>
            rewrite Hs in Hr; discriminate
        end. }
    specialize (Hlt E). pose proof (shownLength_nonneg env s). cbn.
    repeat split; lia.
  - (* Enter opens the results *)
    unfold cursorInList, shownLength in *. cbn in *.
    match goal with Hs : state s = _ |- _ => rewrite Hs in J end. exact J.
  - (* the same while the orders are still requested *)
    unfold cursorInList, shownLength in *. cbn in *.
    match goal with Hs : state s = _ |- _ => rewrite Hs in J end. exact J.
Qed.

(** Apart from the down key on an empty list (C4), the cursor never
    leaves the list: in every state reached without that step, cursor
    and scroll offset are not negative, the cursor is on a row of the
    list shown, and both are 0 when that list is empty. *)
Theorem cursor_stays_on_list :
  forall env s,
    reachableTidy env s ->
    0 <= cursor s /\ 0 <= scrollOffset s /\
    (shownLength env s = 0 -> cursor s = 0 /\ scrollOffset s = 0) /\
    (shownLength env s <> 0 -> cursor s < shownLength env s).
Proof.
  intros env s Hr. change (cursorInList env s).
  induction Hr as [rows | s rows fetched key s' _ IH Hd Ha].
  - apply cursorInList_render. apply cursorInList_zero; reflexivity.
  - eapply cursorInList_step; eassumption.
Qed.

Lemma cursor_stays_on_list_witness :
  let s := {| state := GameSelect; selectedGameId := None;
              cursor := 0; scrollOffset := 0; filterMode := true;
              filterText := ""; markedExpansions := [] |} in
  0 <= cursor s /\ 0 <= scrollOffset s /\
  (shownLength sampleEnv s = 0 -> cursor s = 0 /\ scrollOffset s = 0) /\
  (shownLength sampleEnv s <> 0 ->
   cursor s < shownLength sampleEnv s).
Proof.
  intros s. apply (cursor_stays_on_list sampleEnv s).
  apply (tidy_key sampleEnv sampleStart 30 noOrders "/").
  - apply tidy_start.
  - intros [[H|H] _]; discriminate.
  - vm_compute. reflexivity.
Defined.

(** ** Repainting *)

Lemma adjustViewport_idem len visibleRows s :
  adjustViewport len visibleRows (adjustViewport len visibleRows s) =
  adjustViewport len visibleRows s.
Proof.
  unfold adjustViewport at 2.
  destruct (len =? 0) eqn:E0; [unfold adjustViewport; now rewrite E0|].
  destruct (cursor s >=? len) eqn:E1; cbn;
    repeat match goal with
           | |- context [if ?c then _ else _] => destruct c eqn:?; cbn
           end;
    unfold adjustViewport; rewrite E0; cbn;
    repeat match goal with
           | |- context [if ?c then _ else _] => destruct c eqn:?; cbn
           end;
    try reflexivity;
    zbool; cbn in *; try lia;
    unfold set_scrollOffset, set_cursor; cbn; f_equal; lia.
Qed.

(** Painting a second time changes nothing, whatever the height of the
    terminal: the renderers settle cursor and scroll offset in one
    pass. *)
Theorem render_is_idempotent :
  forall env rows s,
    render env rows (render env rows s) = render env rows s.
Proof.
  intros env rows s.
  destruct (render_frame env rows s) as (E1 & E2 & _ & E4 & _).
  cbv zeta in *. unfold render at 1. rewrite E1.
  unfold render, renderGameSelect, renderExpansionSelect in *.
  destruct (state s); try reflexivity.
  - unfold filteredGames in *. rewrite E4. apply adjustViewport_idem.
  - unfold filteredExps, gameExpansions in *. rewrite E2, E4.
    apply adjustViewport_idem.
Qed.

(** ** The painted lines *)

Section Painting.

Context {A B : Type} (mark : A -> B) (filtered : list A).
Variables (visibleRows : Z) (s : TuiState).

Lemma paintLoop_rows fuel : forall i,
  0 <= i ->
  Forall (fun l => i <= line_row l - 3 < visibleRows)
    (paintLoop mark filtered visibleRows s fuel i) /\
  StronglySorted (fun a b => line_row a < line_row b)
    (paintLoop mark filtered visibleRows s fuel i).
Proof.
  induction fuel as [|fuel IH]; intros i Hi; cbn [paintLoop].
  - split; constructor.
  - destruct ((i <? visibleRows)
              && (i + scrollOffset s <? JS.alength filtered))%bool eqn:E;
      [|split; constructor].
    apply andb_prop in E. destruct E as [E1 E2]. zbool.
    destruct (IH (i + 1)) as [F S]; [lia|].
    assert (F' : Forall (fun l => i <= line_row l - 3 < visibleRows)
                   (paintLoop mark filtered visibleRows s fuel (i + 1))).
    { eapply Forall_impl; [|exact F]. cbn beta. intros; lia. }
    destruct (JS.index filtered (i + scrollOffset s)); [|split; assumption].
    split.
    + constructor; [cbn [line_row]; lia|exact F'].
    + constructor; [exact S|].
      eapply Forall_impl; [|exact F]. cbn [line_row]. intros; lia.
Qed.

(** Once [fuel] covers the rows left, more fuel paints nothing more. *)
Lemma paintLoop_fuel fuel : forall i k,
  visibleRows - i <= Z.of_nat fuel ->
  paintLoop mark filtered visibleRows s (fuel + k) i =
  paintLoop mark filtered visibleRows s fuel i.
Proof.
  induction fuel as [|fuel IH]; intros i k Hf.
  - cbn [Nat.add]. destruct k; [reflexivity|]. cbn [paintLoop].
    destruct (Z.ltb_spec i visibleRows); [cbn in Hf; lia|reflexivity].
  - cbn [Nat.add paintLoop]. rewrite Nat2Z.inj_succ in Hf.
    rewrite (IH (i + 1) k) by lia. reflexivity.
Qed.

(** The inverted lines among those painted from index [i] on. *)
Lemma paintLoop_highlight fuel : forall i,
  visibleRows - i <= Z.of_nat fuel ->
  filter line_isCursor (paintLoop mark filtered visibleRows s fuel i) =
  match JS.index filtered (cursor s) with
  | Some item =>
      if ((i <=? cursor s - scrollOffset s)
          && (cursor s - scrollOffset s <? visibleRows))%bool
      then [{| line_row := 3 + (cursor s - scrollOffset s);
               line_item := item; line_mark := mark item;
               line_isCursor := true |}]
      else []
  | None => []
  end.
Proof.
  induction fuel as [|fuel IH]; intros i Hf; cbn [paintLoop].
  - destruct (JS.index filtered (cursor s)); [|reflexivity].
    destruct (Z.leb_spec i (cursor s - scrollOffset s)); cbn; [|reflexivity].
    destruct (Z.ltb_spec (cursor s - scrollOffset s) visibleRows);
      [lia|reflexivity].
  - destruct (Z.ltb_spec i visibleRows) as [Hlt|Hge]; cbn [andb].
    2:{ destruct (JS.index filtered (cursor s)); [|reflexivity].
        destruct (Z.leb_spec i (cursor s - scrollOffset s)); cbn;
          [|reflexivity].
        destruct (Z.ltb_spec (cursor s - scrollOffset s) visibleRows);
          [lia|reflexivity]. }
    destruct (Z.ltb_spec (i + scrollOffset s) (JS.alength filtered))
      as [Hin|Hout].
    2:{ destruct (JS.index filtered (cursor s)) eqn:Ec; [|reflexivity].
        apply index_Some_range in Ec.
        destruct (Z.leb_spec i (cursor s - scrollOffset s)); cbn;
          [lia|reflexivity]. }
    specialize (IH (i + 1)). rewrite Nat2Z.inj_succ in Hf.
    destruct (JS.index filtered (i + scrollOffset s)) as [item|] eqn:Ei.
    + cbn [filter line_isCursor].
      destruct (Z.eqb_spec (i + scrollOffset s) (cursor s)) as [Ec|Ec].
      * rewrite IH by lia. rewrite <- Ec, Ei.
        replace (i + scrollOffset s - scrollOffset s) with i by lia.
        rewrite Z.leb_refl. cbn [andb].
        destruct (Z.ltb_spec i visibleRows); [|lia].
        destruct (Z.leb_spec (i + 1) i); [lia|]. reflexivity.
      * rewrite IH by lia.
        destruct (JS.index filtered (cursor s)); [|reflexivity].
        destruct (Z.leb_spec i (cursor s - scrollOffset s)),
                 (Z.leb_spec (i + 1) (cursor s - scrollOffset s));
          try reflexivity; lia.
    + rewrite IH by lia.
      destruct (JS.index filtered (cursor s)) eqn:Ec; [|reflexivity].
      apply index_Some_range in Ec.
      assert (i + scrollOffset s < 0).
      { unfold JS.index in Ei.
        destruct (Z.ltb_spec (i + scrollOffset s) 0); [assumption|].
        apply nth_error_None in Ei. unfold JS.alength in Hin. lia. }
      destruct (Z.leb_spec i (cursor s - scrollOffset s)),
               (Z.leb_spec (i + 1) (cursor s - scrollOffset s));
        try reflexivity; lia.
Qed.

End Painting.

Lemma index_defined {A} (l : list A) i :
  0 <= i < JS.alength l -> exists x, JS.index l i = Some x.
Proof.
  intros Hi. unfold JS.index, JS.alength in *.
  destruct (Z.ltb_spec i 0); [lia|].
  destruct (nth_error l (Z.to_nat i)) as [x|] eqn:E; [now exists x|].
  apply nth_error_None in E. lia.
Qed.

Lemma paintList_rows {A B} (mark : A -> B) filtered visibleRows s :
  Forall (fun l => 3 <= line_row l <= visibleRows + 2)
    (paintList mark filtered visibleRows s) /\
  StronglySorted (fun a b => line_row a < line_row b)
    (paintList mark filtered visibleRows s).
Proof.
  unfold paintList. destruct (JS.alength filtered =? 0);
    [split; constructor|].
  match goal with
  | |- context [paintLoop mark filtered visibleRows ?t ?f 0] =>
      destruct (paintLoop_rows mark filtered visibleRows t f 0) as [F S];
        [lia|]
  end.
  split; [|exact S].
  eapply Forall_impl; [|exact F]. cbn beta. intros; lia.
Qed.

Lemma paintList_highlight {A B} (mark : A -> B) filtered visibleRows s :
  filtered <> [] -> 0 <= cursor s -> 1 <= visibleRows ->
  let s' := adjustViewport (JS.alength filtered) visibleRows s in
  exists item,
    JS.index filtered (cursor s') = Some item /\
    filter line_isCursor (paintList mark filtered visibleRows s) =
      [{| line_row := 3 + (cursor s' - scrollOffset s');
          line_item := item; line_mark := mark item;
          line_isCursor := true |}].
Proof.
  intros Hne Hc Hv s'.
  assert (Hlen : JS.alength filtered <> 0)
    by (now rewrite alength_nil_iff).
  assert (Hpos : 0 < JS.alength filtered)
    by (unfold JS.alength in *; lia).
  destruct (adjustViewport_cursor (JS.alength filtered) visibleRows s Hpos)
    as (Hlt & Hnn & _).
  pose proof (adjustViewport_window (JS.alength filtered) visibleRows s
                Hlen Hv) as Hw.
  cbv zeta in *. fold s' in Hlt, Hnn, Hw. specialize (Hnn Hc).
  destruct (index_defined filtered (cursor s')) as [item Hi]; [lia|].
  exists item. split; [exact Hi|].
  unfold paintList. destruct (Z.eqb_spec (JS.alength filtered) 0); [lia|].
  fold s'. rewrite paintLoop_highlight by lia. rewrite Hi.
  destruct (Z.leb_spec 0 (cursor s' - scrollOffset s')); [|lia].
  destruct (Z.ltb_spec (cursor s' - scrollOffset s') visibleRows); [|lia].
  reflexivity.
Qed.

(** The list lines of either screen go to pairwise different screen
    lines, top to bottom, from line 3 down to at most four lines above
    the bottom: the header (lines 1-2) and the footer (the last three
    lines) are never painted over by the list. *)
Theorem list_lines_stay_between_header_and_footer :
  forall env rows s,
    (Forall (fun l => 3 <= line_row l <= rows - 4)
       (paintGameSelect env rows s) /\
     StronglySorted (fun a b => line_row a < line_row b)
       (paintGameSelect env rows s)) /\
    (Forall (fun l => 3 <= line_row l <= rows - 4)
       (paintExpansionSelect env rows s) /\
     StronglySorted (fun a b => line_row a < line_row b)
       (paintExpansionSelect env rows s)).
Proof.
  intros env rows s. unfold paintGameSelect, paintExpansionSelect.
  split.
  - destruct (paintList_rows (expCount env) (filteredGames env s)
                (getVisibleRows rows) s) as [F S].
    split; [|exact S]. eapply Forall_impl; [|exact F].
    unfold getVisibleRows. cbn beta. intros; lia.
  - destruct (paintList_rows
                (fun e => JS.Set_has (markedExpansions s) (e_id e))
                (filteredExps env s) (getVisibleRows rows) s) as [F S].
    split; [|exact S]. eapply Forall_impl; [|exact F].
    unfold getVisibleRows. cbn beta. intros; lia.
Qed.

(** With a cursor that is not negative, a list that is not empty and at
    least one visible row, exactly one painted line is inverted, and it
    shows the entry under the (adjusted) cursor: the highlighted entry is
    always on screen.  This holds for the game list, with the number of
    sets of the game, and for the expansion list, with its check mark. *)
Theorem highlighted_entry_is_painted_once :
  forall env rows s,
    0 <= cursor s -> 1 <= getVisibleRows rows ->
    (filteredGames env s <> [] ->
     let s' := renderGameSelect env rows s in
     exists g,
       JS.index (filteredGames env s) (cursor s') = Some g /\
       filter line_isCursor (paintGameSelect env rows s) =
         [{| line_row := 3 + (cursor s' - scrollOffset s');
             line_item := g; line_mark := expCount env g;
             line_isCursor := true |}]) /\
    (filteredExps env s <> [] ->
     let s' := renderExpansionSelect env rows s in
     exists e,
       JS.index (filteredExps env s) (cursor s') = Some e /\
       filter line_isCursor (paintExpansionSelect env rows s) =
         [{| line_row := 3 + (cursor s' - scrollOffset s');
             line_item := e;
             line_mark := JS.Set_has (markedExpansions s) (e_id e);
             line_isCursor := true |}]).
Proof.
  intros env rows s Hc Hv. split; intros Hne.
  - exact (paintList_highlight (expCount env) (filteredGames env s)
             (getVisibleRows rows) s Hne Hc Hv).
  - exact (paintList_highlight
             (fun e => JS.Set_has (markedExpansions s) (e_id e))
             (filteredExps env s) (getVisibleRows rows) s Hne Hc Hv).
Qed.

Lemma highlighted_entry_is_painted_once_witness :
  let s := {| state := ExpansionSelect; selectedGameId := Some 1;
              cursor := 1; scrollOffset := 0; filterMode := false;
              filterText := ""; markedExpansions := [11] |} in
  exists e,
    JS.index (filteredExps sampleEnv s)
      (cursor (renderExpansionSelect sampleEnv 7 s)) = Some e /\
    filter line_isCursor (paintExpansionSelect sampleEnv 7 s) =
      [{| line_row :=
            3 + (cursor (renderExpansionSelect sampleEnv 7 s)
                 - scrollOffset (renderExpansionSelect sampleEnv 7 s));
          line_item := e;
          line_mark := JS.Set_has (markedExpansions s) (e_id e);
          line_isCursor := true |}].
Proof.
  intros s.
  apply (highlighted_entry_is_painted_once sampleEnv 7 s).
  - vm_compute. discriminate.
  - vm_compute. discriminate.
  - vm_compute. discriminate.
Defined.

(** In the state the down key leaves on an empty list (C4), once the
    list is shown again no line at all is inverted. *)
Lemma negative_cursor_highlights_nothing :
  exists s,
    feed sampleEnv 30 noOrders ["/"; "z"; CR; "j"; "/"; CR]%string sampleStart
      = Some s /\
    cursor s = -1 /\
    map line_isCursor (paintGameSelect sampleEnv 30 s) = [false].
Proof.
  eexists. split; [vm_compute; reflexivity|]. split; reflexivity.
Qed.

(** * Further properties of the key decoder *)

(** ** The shape of keys and of the escape buffer *)

Lemma onChar_shapes c d :
  bufferShape (Decoder.escapeBuffer d) ->
  bufferShape (Decoder.escapeBuffer (fst (Decoder.onChar c d))) /\
  Forall isKey (snd (Decoder.onChar c d)).
Proof.
  intros [E|[E|[x E]]].
  - rewrite (onChar_empty c d E).
    destruct (Ascii.eqb c "027"); cbn [fst snd Decoder.escapeBuffer].
    + split; [right; left; reflexivity|constructor].
    + rewrite E. split; [now left|].
      constructor; [left; now exists c|constructor].
  - rewrite (onChar_one c d _ E). cbn [fst snd Decoder.escapeBuffer].
    split; [right; right; now exists c|constructor].
  - rewrite (onChar_two c d _ _ E), startsWith_escape_bracket.
    cbn [fst snd Decoder.escapeBuffer]. split; [now left|].
    destruct (Ascii.eqb_spec x "["); [|constructor].
    subst x. constructor; [right; now exists c|constructor].
Qed.

Lemma onTimeout_shapes d d' out :
  bufferShape (Decoder.escapeBuffer d) ->
  Decoder.onTimeout d = Some (d', out) ->
  bufferShape (Decoder.escapeBuffer d') /\ Forall isKey out.
Proof.
  unfold Decoder.onTimeout. intros Hb H.
  destruct (Decoder.pending d); [discriminate|].
  destruct (Decoder.escapeBuffer d =? ESC)%string; injection H as <- <-; cbn.
  - split; [now left|]. constructor; [left; now exists "027"%char|constructor].
  - split; [exact Hb|constructor].
Qed.

Lemma park_buffer w d :
  Decoder.escapeBuffer (Decoder.park w d) = Decoder.escapeBuffer d.
Proof. now destruct w. Qed.

Lemma handler_shapes data : forall d d' out w,
  bufferShape (Decoder.escapeBuffer d) ->
  Decoder.handler data d = (d', out, w) ->
  bufferShape (Decoder.escapeBuffer d') /\ Forall isKey out.
Proof.
  induction data as [|c data IH]; intros d d' out w Hb H;
    cbn [Decoder.handler] in H.
  - inversion H; subst. split; [exact Hb|constructor].
  - destruct (onChar_shapes c d Hb) as [Hb1 Hk1].
    destruct (Decoder.onChar c d) as [d1 o1]. cbn [fst snd] in *.
    destruct (existsb (String.eqb CR) o1).
    + inversion H; subst. now split.
    + destruct (Decoder.handler data d1) as [[d2 o2] w2] eqn:E.
      destruct (IH d1 d2 o2 w2 Hb1 E) as [Hb2 Hk2].
      inversion H; subst.
      split; [exact Hb2|]. apply Forall_app. now split.
Qed.

Lemma step_shapes i d d' out :
  bufferShape (Decoder.escapeBuffer d) ->
  Decoder.step i d = Some (d', out) ->
  bufferShape (Decoder.escapeBuffer d') /\ Forall isKey out.
Proof.
  intros Hb H. destruct i as [data| |n]; cbn in H.
  - destruct (Decoder.handler data d) as [[d1 o1] w] eqn:E.
    injection H as <- <-. rewrite park_buffer.
    eapply handler_shapes; eassumption.
  - eapply onTimeout_shapes; eassumption.
  - destruct (nth_error (Decoder.waiting d) n) as [rest|]; [|discriminate].
    destruct (Decoder.handler rest (Decoder.unpark n d))
      as [[d1 o1] w] eqn:E.
    injection H as <- <-. rewrite park_buffer.
    eapply handler_shapes; [|exact E]. exact Hb.
Qed.

Lemma run_shapes ins : forall d d' out,
  bufferShape (Decoder.escapeBuffer d) ->
  Decoder.run ins d = Some (d', out) ->
  bufferShape (Decoder.escapeBuffer d') /\ Forall isKey out.
Proof.
  induction ins as [|i ins IH]; intros d d' out Hb H; cbn in H.
  - injection H as <- <-. split; [exact Hb|constructor].
  - destruct (Decoder.step i d) as [[d1 o1]|] eqn:Es; [|discriminate].
    destruct (Decoder.run ins d1) as [[d2 o2]|] eqn:Er; [|discriminate].
    injection H as <- <-.
    destruct (step_shapes i d d1 o1 Hb Es) as [Hb1 Hk1].
    destruct (IH d1 d2 o2 Hb1 Er) as [Hb2 Hk2].
    split; [exact Hb2|]. apply Forall_app. now split.
Qed.

(** Whatever chunks arrive, whenever the timers run and whenever the
    waiting handlers go on, every key the decoder hands to [handleInput]
    is one character or ESC, left bracket and one character; between
    events the escape buffer holds at most ESC and one more
    character. *)
Theorem decoder_emits_only_keys :
  forall ins p d out,
    Decoder.run ins (Decoder.idle p) = Some (d, out) ->
    Forall isKey out /\ bufferShape (Decoder.escapeBuffer d).
Proof.
  intros ins p d out H.
  destruct (run_shapes ins (Decoder.idle p) d out) as [Hb Hk];
    [now left|exact H|]. now split.
Qed.

Lemma decoder_emits_only_keys_witness :
  Forall isKey [UP; "x"%string] /\ bufferShape ESC.
Proof.
  apply (decoder_emits_only_keys
           [Decoder.Byte "027"; Decoder.Byte "["; Decoder.Byte "A";
            Decoder.Byte "x"; Decoder.Byte "027"] 0
           {| Decoder.escapeBuffer := ESC; Decoder.pending := 2;
              Decoder.waiting := [] |}).
  reflexivity.
Defined.

(** ** Plain characters *)

Lemma throughEnter_afterEnter cs :
  cs = Decoder.throughEnter cs
         ++ match Decoder.afterEnter cs with Some r => r | None => [] end.
Proof.
  induction cs as [|c cs IH]; [reflexivity|]. cbn.
  destruct (Ascii.eqb c "013"); [reflexivity|]. cbn. now f_equal.
Qed.

Lemma afterEnter_shorter cs rest :
  Decoder.afterEnter cs = Some rest ->
  (List.length rest < List.length cs)%nat.
Proof.
  induction cs as [|c cs IH]; cbn; [discriminate|].
  destruct (Ascii.eqb c "013").
  - intros H. injection H as <-. lia.
  - intros H. specialize (IH H). lia.
Qed.

Lemma afterEnter_count cs :
  count_occ ascii_dec cs "013"%char =
  match Decoder.afterEnter cs with
  | Some rest => S (count_occ ascii_dec rest "013"%char)
  | None => O
  end.
Proof.
  induction cs as [|c cs IH]; [reflexivity|].
  cbn [count_occ Decoder.afterEnter].
  destruct (Ascii.eqb_spec c "013") as [->|N].
  - now destruct (ascii_dec "013" "013").
  - destruct (ascii_dec c "013"); [contradiction|exact IH].
Qed.

(** A handler that meets no ESC while the escape buffer is empty hands
    on its characters one by one and stops behind the first Enter. *)
Lemma handler_plain cs : forall d,
  Decoder.escapeBuffer d = EmptyString ->
  Forall (fun c => c <> "027"%char) cs ->
  Decoder.handler cs d =
  (d, map (fun c => String c EmptyString) (Decoder.throughEnter cs),
   Decoder.afterEnter cs).
Proof.
  induction cs as [|c cs IH]; intros d Hb H; [reflexivity|].
  inversion H as [|? ? Hc Hcs]; subst.
  cbn [Decoder.handler Decoder.throughEnter Decoder.afterEnter].
  rewrite (onChar_empty c d Hb).
  destruct (Ascii.eqb_spec c "027"); [contradiction|].
  cbn [existsb]. rewrite enter_key, orb_false_r.
  destruct (Ascii.eqb c "013"); [reflexivity|].
  rewrite (IH d Hb Hcs). reflexivity.
Qed.

(** The handler that stopped last goes on where a fresh one would
    start. *)
Lemma step_Returns_parked rest d :
  Decoder.step (Decoder.Returns (List.length (Decoder.waiting d)))
    (Decoder.park (Some rest) d) =
  Decoder.step (Decoder.Chunk rest) d.
Proof.
  destruct d as [b p w]. cbn [Decoder.park Decoder.step Decoder.waiting
    Decoder.escapeBuffer Decoder.pending].
  rewrite nth_error_app2 by lia. rewrite Nat.sub_diag. cbn [nth_error].
  unfold Decoder.unpark. cbn [Decoder.waiting Decoder.escapeBuffer
    Decoder.pending].
  rewrite firstn_app, Nat.sub_diag, firstn_all, firstn_O, app_nil_r.
  rewrite skipn_app, skipn_all2 by lia.
  replace (S (List.length w) - List.length w)%nat with 1%nat by lia.
  cbn [skipn app]. rewrite app_nil_r. reflexivity.
Qed.

Lemma run_cons i ins d :
  Decoder.run (i :: ins) d =
  match Decoder.step i d with
  | None => None
  | Some (d1, out1) =>
      match Decoder.run ins d1 with
      | None => None
      | Some (d2, out2) => Some (d2, out1 ++ out2)
      end
  end.
Proof. reflexivity. Qed.

Lemma step_Chunk_plain cs d :
  Decoder.escapeBuffer d = EmptyString ->
  Forall (fun c => c <> "027"%char) cs ->
  Decoder.step (Decoder.Chunk cs) d =
  Some (Decoder.park (Decoder.afterEnter cs) d,
        map (fun c => String c EmptyString) (Decoder.throughEnter cs)).
Proof.
  intros Hb H. cbn [Decoder.step]. now rewrite (handler_plain cs d Hb H).
Qed.

Lemma chunk_in_order n : forall cs d,
  (List.length cs <= n)%nat ->
  Decoder.escapeBuffer d = EmptyString ->
  Forall (fun c => c <> "027"%char) cs ->
  Decoder.run
    (Decoder.Chunk cs
       :: repeat (Decoder.Returns (List.length (Decoder.waiting d)))
            (count_occ ascii_dec cs "013"%char)) d =
  Some (d, map (fun c => String c EmptyString) cs).
Proof.
  induction n as [|n IH]; intros cs d Hn Hb H.
  - destruct cs; [|cbn in Hn; lia]. reflexivity.
  - rewrite run_cons, (step_Chunk_plain cs d Hb H), afterEnter_count.
    pose proof (throughEnter_afterEnter cs) as Hsplit.
    destruct (Decoder.afterEnter cs) as [rest|] eqn:Ea.
    + assert (Hrest : Forall (fun c => c <> "027"%char) rest).
      { rewrite Hsplit in H. apply Forall_app in H. tauto. }
      pose proof (afterEnter_shorter cs rest Ea) as Hlt.
      cbn [repeat]. rewrite run_cons, step_Returns_parked, <- run_cons.
      rewrite (IH rest d ltac:(lia) Hb Hrest).
      rewrite Hsplit at 2. now rewrite map_app.
    + cbn [repeat Decoder.run Decoder.park]. rewrite app_nil_r in *.
      now rewrite <- Hsplit.
Qed.

(** A chunk without ESC that arrives while the escape buffer is empty:
    its characters are handed to [handleInput] one key each and in the
    order of the chunk, up to and including the first Enter; there the
    handler waits with the characters left.  When every Enter call
    returns before another event is served, the whole chunk is handed
    on in order and the decoder is left as it was. *)
Theorem plain_characters_pass_through :
  forall cs d,
    Decoder.escapeBuffer d = EmptyString ->
    Forall (fun c => c <> "027"%char) cs ->
    Decoder.run [Decoder.Chunk cs] d =
      Some (Decoder.park (Decoder.afterEnter cs) d,
            map (fun c => String c EmptyString) (Decoder.throughEnter cs)) /\
    Decoder.run
      (Decoder.Chunk cs
         :: repeat (Decoder.Returns (List.length (Decoder.waiting d)))
              (count_occ ascii_dec cs "013"%char)) d =
      Some (d, map (fun c => String c EmptyString) cs).
Proof.
  intros cs d Hb H. split.
  - rewrite run_cons, (step_Chunk_plain cs d Hb H). cbn [Decoder.run].
    now rewrite app_nil_r.
  - now apply (chunk_in_order (List.length cs)).
Qed.

Lemma plain_characters_pass_through_witness :
  Decoder.run [Decoder.Chunk ["m"; "a"; "013"; "g"]%char] (Decoder.idle 0) =
    Some ({| Decoder.escapeBuffer := ""; Decoder.pending := 0;
             Decoder.waiting := [["g"%char]] |}, ["m"; "a"; CR]%string) /\
  Decoder.run [Decoder.Chunk ["m"; "a"; "013"; "g"]%char; Decoder.Returns 0]
    (Decoder.idle 0) =
    Some (Decoder.idle 0, ["m"; "a"; CR; "g"]%string).
Proof.
  apply (plain_characters_pass_through ["m"; "a"; "013"; "g"]%char
           (Decoder.idle 0) eq_refl).
  repeat constructor; discriminate.
Defined.

(** Not so when something else is served while a handler waits: the
    characters of a later chunk overtake the characters left of the
    waiting one, *)
Lemma later_chunk_overtakes :
  Decoder.run [Decoder.Chunk ["013"; "a"; "b"]%char;
               Decoder.Chunk ["c"]%char; Decoder.Returns 0]
    (Decoder.idle 0) =
  Some (Decoder.idle 0, [CR; "c"; "a"; "b"]%string).
Proof. reflexivity. Qed.

(** and an ESC of a later chunk swallows them. *)
Lemma later_escape_swallows_waiting_characters :
  Decoder.run [Decoder.Chunk ["013"; "a"; "b"]%char;
               Decoder.Chunk ["027"]%char; Decoder.Returns 0;
               Decoder.TimerFires]
    (Decoder.idle 0) =
  Some (Decoder.idle 0, [CR]).
Proof. reflexivity. Qed.

(** ** Sequences that are no arrow keys *)

(** ESC followed by a character other than the left bracket swallows
    that character and the next one: nothing is handed on, not even when
    the timer runs afterwards, and the escape buffer is empty again. *)
Theorem escape_without_bracket_swallows_two :
  forall c d p,
    c <> "["%char ->
    Decoder.run [Decoder.Byte "027"; Decoder.Byte c; Decoder.Byte d;
                 Decoder.TimerFires] (Decoder.idle p) =
    Some (Decoder.idle p, []).
Proof.
  intros c d p Hc.
  set (d1 := {| Decoder.escapeBuffer := ESC; Decoder.pending := S p;
                Decoder.waiting := [] |}).
  set (d2 := {| Decoder.escapeBuffer := String "027" (String c "");
                Decoder.pending := S p; Decoder.waiting := [] |}).
  set (d3 := {| Decoder.escapeBuffer := ""; Decoder.pending := S p;
                Decoder.waiting := [] |}).
  rewrite run_cons, (step_Byte_silent "027" (Decoder.idle p) d1)
    by reflexivity.
  rewrite run_cons, (step_Byte_silent c d1 d2)
    by (now rewrite (onChar_one c d1 "027" eq_refl)).
  rewrite run_cons, (step_Byte_silent d d2 d3).
  - reflexivity.
  - rewrite (onChar_two d d2 "027" c eq_refl), startsWith_escape_bracket.
    destruct (Ascii.eqb_spec c "["); [contradiction|reflexivity].
Qed.

Lemma escape_without_bracket_swallows_two_witness :
  Decoder.run [Decoder.Byte "027"; Decoder.Byte "O"; Decoder.Byte "A";
               Decoder.TimerFires] (Decoder.idle 0) =
  Some (Decoder.idle 0, []).
Proof.
  apply (escape_without_bracket_swallows_two "O" "A" 0). discriminate.
Defined.

(** * Further properties of the aggregation *)

Section SalesMore.

Import Sales SalesSpec.

(** ** The breakdown accounts for the totals *)

Lemma Map_set_sums (f : Tally -> Z) (m : Breakdown) k v :
  sumZ (map (fun e => f (snd e)) (Map_set m k v)) =
  sumZ (map (fun e => f (snd e)) m) + f v
  - match Map_get m k with Some t => f t | None => 0 end.
Proof.
  unfold sumZ. induction m as [|[k' v'] m IH]; cbn; [lia|].
  destruct (k' =? k)%string; cbn; [lia|]. rewrite IH. lia.
Qed.

Lemma addItem_keeps_sums a x :
  sumZ (map (fun e => qty (snd e)) (cardBreakdown a)) = totalQty a ->
  sumZ (map (fun e => cents (snd e)) (cardBreakdown a)) = totalCents a ->
  sumZ (map (fun e => qty (snd e)) (cardBreakdown (addItem a x)))
    = totalQty (addItem a x) /\
  sumZ (map (fun e => cents (snd e)) (cardBreakdown (addItem a x)))
    = totalCents (addItem a x).
Proof.
  intros Hq Hc. unfold addItem. cbn [cardBreakdown totalQty totalCents].
  rewrite (Map_set_sums qty), (Map_set_sums cents), Hq, Hc.
  destruct (Map_get (cardBreakdown a) (nameOf x)); cbn; lia.
Qed.

Lemma fold_addItem_keeps_sums l : forall a,
  sumZ (map (fun e => qty (snd e)) (cardBreakdown a)) = totalQty a ->
  sumZ (map (fun e => cents (snd e)) (cardBreakdown a)) = totalCents a ->
  sumZ (map (fun e => qty (snd e))
          (cardBreakdown (fold_left addItem l a)))
    = totalQty (fold_left addItem l a) /\
  sumZ (map (fun e => cents (snd e))
          (cardBreakdown (fold_left addItem l a)))
    = totalCents (fold_left addItem l a).
Proof.
  induction l as [|x l IH]; intros a Hq Hc; cbn [fold_left]; [now split|].
  destruct (addItem_keeps_sums a x Hq Hc). now apply IH.
Qed.

(** The quantities of the breakdown entries add up to [totalQty] and
    their revenues to [totalCents], for every marked id, known or not. *)
Theorem breakdown_adds_up_to_totals :
  forall env orders expId,
    let r := resultFor env orders expId in
    sumZ (map (fun e => qty (snd e)) (r_cardBreakdown r)) = r_totalQty r /\
    sumZ (map (fun e => cents (snd e)) (r_cardBreakdown r)) = r_totalCents r.
Proof.
  intros env orders expId r. subst r. unfold resultFor.
  cbn [r_cardBreakdown r_totalQty r_totalCents].
  rewrite scan_matching. apply fold_addItem_keeps_sums; reflexivity.
Qed.

(** ** The order of the records *)

Lemma matched_sum_perm (f : OrderItem -> Z) lc nm os os' :
  Permutation os os' ->
  sumZ (map f (matching lc nm (lineItems os))) =
  sumZ (map f (matching lc nm (lineItems os'))).
Proof.
  assert (Hc : forall o l,
             sumZ (map f (matching lc nm (lineItems (o :: l)))) =
             sumZ (map f (matching lc nm (lineItems [o])))
             + sumZ (map f (matching lc nm (lineItems l)))).
  { intros o l. change (o :: l) with ([o] ++ l).
    now rewrite lineItems_app, matching_app, map_app, sumZ_app. }
  induction 1 as [|o l l' _ IH|a b l|l1 l2 l3 _ IH1 _ IH2].
  - reflexivity.
  - rewrite (Hc o l), (Hc o l'), IH. reflexivity.
  - rewrite (Hc b (a :: l)), (Hc a l), (Hc a (b :: l)), (Hc b l). lia.
  - now rewrite IH1.
Qed.

(** The totals of an expansion do not depend on the order in which the
    records are stored. *)
Theorem totals_ignore_record_order :
  forall env orders orders' expId,
    Permutation orders orders' ->
    r_totalQty (resultFor env orders expId) =
      r_totalQty (resultFor env orders' expId) /\
    r_totalCents (resultFor env orders expId) =
      r_totalCents (resultFor env orders' expId).
Proof.
  intros env orders orders' expId Hp. unfold resultFor.
  cbn [r_totalQty r_totalCents].
  match goal with
  | |- context [scan ?lc ?nm orders] =>
      destruct (scan_totals lc nm orders) as [-> ->];
        destruct (scan_totals lc nm orders') as [-> ->]
  end.
  split; now apply matched_sum_perm.
Qed.

Lemma totals_ignore_record_order_witness :
  r_totalQty (resultFor sampleEnv
                [orderOf [cardA]; orderOf [bare]] 10) =
  r_totalQty (resultFor sampleEnv
                [orderOf [bare]; orderOf [cardA]] 10).
Proof.
  apply (totals_ignore_record_order sampleEnv
           [orderOf [cardA]; orderOf [bare]]
           [orderOf [bare]; orderOf [cardA]] 10).
  apply perm_swap.
Defined.

(** ** The grand total *)

Lemma grandTotal_from rs : forall g,
  fold_left (fun g r => (fst g + r_totalCents r, snd g + r_totalQty r)) rs g =
  (fst g + sumZ (map r_totalCents rs), snd g + sumZ (map r_totalQty rs)).
Proof.
  unfold sumZ. induction rs as [|r rs IH]; intros [c q]; cbn.
  - f_equal; lia.
  - rewrite IH. cbn. f_equal; lia.
Qed.

(** One result per marked id, in marking order, and the grand total is
    the sum of the per-expansion totals, for revenue and for quantity;
    hence marking more expansions adds their totals. *)
Theorem grand_total_is_sum_of_results :
  forall env orders marked more,
    map r_id (results env orders marked) = marked /\
    grandTotal (results env orders marked) =
      (sumZ (map (fun id => r_totalCents (resultFor env orders id)) marked),
       sumZ (map (fun id => r_totalQty (resultFor env orders id)) marked)) /\
    grandTotal (results env orders (marked ++ more)) =
      (fst (grandTotal (results env orders marked))
         + fst (grandTotal (results env orders more)),
       snd (grandTotal (results env orders marked))
         + snd (grandTotal (results env orders more))).
Proof.
  intros env orders marked more.
  assert (HG : forall m, grandTotal (results env orders m) =
      (sumZ (map (fun id => r_totalCents (resultFor env orders id)) m),
       sumZ (map (fun id => r_totalQty (resultFor env orders id)) m))).
  { intros m. unfold grandTotal, results. rewrite grandTotal_from.
    rewrite !map_map. reflexivity. }
  split; [|split].
  - unfold results. rewrite map_map. cbn. apply map_id.
  - apply HG.
  - rewrite !HG. cbn [fst snd]. now rewrite !map_app, !sumZ_app.
Qed.

(** ** The join by name *)

(** Two marked expansions whose names differ at most in letter case,
    that is, have the same lower case, get the same totals and the same
    breakdown: every matching line item is counted under both, and so
    twice in the grand total. *)
Theorem same_name_same_sales :
  forall env orders a b ea eb,
    findExpansion (expansions env) a = Some ea ->
    findExpansion (expansions env) b = Some eb ->
    sameIgnoringCase (caseFold env) (e_name ea) (e_name eb) = true ->
    r_totalQty (resultFor env orders a) =
      r_totalQty (resultFor env orders b) /\
    r_totalCents (resultFor env orders a) =
      r_totalCents (resultFor env orders b) /\
    r_cardBreakdown (resultFor env orders a) =
      r_cardBreakdown (resultFor env orders b).
Proof.
  intros env orders a b ea eb Ha Hb Hs. unfold resultFor.
  rewrite Ha, Hb. cbn [r_totalQty r_totalCents r_cardBreakdown].
  unfold sameIgnoringCase in Hs. apply String.eqb_eq in Hs.
  rewrite Hs. repeat split.
Qed.

Lemma same_name_same_sales_witness :
  let env :=
    {| games := [];
       expansions := [ {| e_id := 10; e_game_id := 1; e_name := "Promos" |};
                       {| e_id := 20; e_game_id := 2; e_name := "PROMOS" |} ];
       caseFold := JS.asciiFold |} in
  r_totalQty (resultFor env [orderOf [cardA]] 10) =
  r_totalQty (resultFor env [orderOf [cardA]] 20).
Proof.
  intros env.
  apply (same_name_same_sales env [orderOf [cardA]] 10 20
           {| e_id := 10; e_game_id := 1; e_name := "Promos" |}
           {| e_id := 20; e_game_id := 2; e_name := "PROMOS" |});
    reflexivity.
Defined.

Lemma toLowerCase_is_empty (lc : JS.CaseFold) x :
  (JS.toLowerCase lc x =? "")%string = (x =? "")%string.
Proof.
  destruct (String.eqb_spec x "") as [->|N].
  - rewrite toLowerCase_empty. reflexivity.
  - apply String.eqb_neq. intros E. apply N.
    now apply (JS.toLowerCase_nonempty lc).
Qed.

(** A marked id that no expansion carries is reported under the name
    Unknown and collects exactly the line items that record no
    expansion name (absent or empty). *)
Theorem unknown_id_collects_unnamed_items :
  forall env orders expId,
    findExpansion (expansions env) expId = None ->
    let r := resultFor env orders expId in
    let unnamed :=
      filter (fun it => (recordedExpansion it =? "")%string)
        (lineItems orders) in
    r_name r = "Unknown"%string /\
    r_totalQty r = sumZ (map qtyOf unnamed) /\
    r_totalCents r = sumZ (map revenueOf unnamed).
Proof.
  intros env orders expId Hn r unnamed. subst r unnamed.
  unfold resultFor. rewrite Hn. cbn [r_name r_totalQty r_totalCents].
  split; [reflexivity|].
  destruct (scan_totals (caseFold env) "" orders) as [-> ->].
  assert (E : matching (caseFold env) "" (lineItems orders) =
              filter (fun it => (recordedExpansion it =? "")%string)
                (lineItems orders)).
  { unfold matching. apply filter_ext. intros it.
    unfold itemExpName, recordedExpansion. rewrite orString_empty.
    apply toLowerCase_is_empty. }
  rewrite E. split; reflexivity.
Qed.

Lemma unknown_id_collects_unnamed_items_witness :
  r_name (resultFor sampleEnv [orderOf [cardA]] 99)
    = "Unknown"%string /\
  r_totalQty (resultFor sampleEnv [orderOf [cardA]] 99) = 0.
Proof.
  destruct (unknown_id_collects_unnamed_items sampleEnv
              [orderOf [cardA]] 99 eq_refl) as (H1 & H2 & _).
  split; [exact H1|]. rewrite H2. reflexivity.
Defined.

(** ** The rows printed *)

Lemma sorted_firstn_skipn {A} (R : A -> A -> Prop) l : forall n a b,
  StronglySorted R l ->
  In a (firstn n l) -> In b (skipn n l) -> R a b.
Proof.
  induction l as [|x l IH]; intros n a b Hs Ha Hb.
  - destruct n; destruct Ha.
  - destruct n as [|n]; [destruct Ha|].
    inversion Hs as [|? ? Hs' Hx]; subst. cbn in Ha, Hb.
    destruct Ha as [<-|Ha].
    + rewrite Forall_forall in Hx. apply Hx.
      rewrite <- (firstn_skipn n l). apply in_or_app. now right.
    + eapply IH; eassumption.
Qed.

(** At most five rows are printed under an expansion, all of them
    breakdown entries, and they are the best sellers: an entry that is
    not printed has no more revenue than any entry that is. *)
Theorem top5_rows_are_the_best_sellers :
  forall env orders expId,
    let r := resultFor env orders expId in
    List.length (top5 r) = Nat.min 5 (List.length (r_cardBreakdown r)) /\
    incl (top5 r) (r_cardBreakdown r) /\
    (forall a b,
       In a (top5 r) -> In b (r_cardBreakdown r) -> ~ In b (top5 r) ->
       cents (snd b) <= cents (snd a)).
Proof.
  intros env orders expId r.
  assert (Ht : top5 r = firstn 5 (JS.sort byCentsDesc (r_cardBreakdown r))).
  { unfold top5. destruct (r_cardBreakdown r); reflexivity. }
  destruct (sort_ranks (r_cardBreakdown r)) as (Hp & Hs & _).
  rewrite Ht. split; [|split].
  - rewrite length_firstn. now rewrite (Permutation_length Hp).
  - intros x Hx. apply (Permutation_in x Hp).
    rewrite <- (firstn_skipn 5). apply in_or_app. now left.
  - intros a b Ha Hb Hnb.
    apply (sorted_firstn_skipn
             (fun a b : string * Tally => cents (snd b) <= cents (snd a))
             (JS.sort byCentsDesc (r_cardBreakdown r)) 5); try assumption.
    apply (Permutation_in b (Permutation_sym Hp)) in Hb.
    rewrite <- (firstn_skipn 5) in Hb. apply in_app_or in Hb.
    destruct Hb; [contradiction|assumption].
Qed.

Lemma top5_rows_are_the_best_sellers_witness :
  cents (snd ("C1"%string, {| qty := 1; cents := 100 |})) <=
  cents (snd ("C5"%string, {| qty := 1; cents := 200 |})).
Proof.
  destruct (top5_rows_are_the_best_sellers sampleEnv
              sixCards 10) as (_ & _ & H).
  apply (H ("C5"%string, {| qty := 1; cents := 200 |})
           ("C1"%string, {| qty := 1; cents := 100 |})).
  - vm_compute. tauto.
  - vm_compute. tauto.
  - vm_compute. intros C.
    repeat (destruct C as [C|C]; [discriminate|]). exact C.
Defined.

End SalesMore.

(** * The game list *)

Section GameListFacts.

Variable cleanName : string -> string.
Variable localeCompare : string -> string -> Z.

Local Abbreviation addCategory := (GameList.addCategory cleanName).
Local Abbreviation gamesMap := (GameList.gamesMap cleanName).
Local Abbreviation fromFirst := (GameList.fromFirst cleanName).

Lemma Map_has_In m k : GameList.Map_has m k = true <-> In k (map fst m).
Proof.
  unfold GameList.Map_has. rewrite existsb_exists, in_map_iff. split.
  - intros [e [He E]]. apply Z.eqb_eq in E. now exists e.
  - intros [e [E He]]. exists e. split; [exact He|]. now apply Z.eqb_eq.
Qed.

Lemma gamesMap_snoc cats cat :
  gamesMap (cats ++ [cat]) = addCategory (gamesMap cats) cat.
Proof.
  unfold GameList.gamesMap. now rewrite fold_left_app.
Qed.

Lemma gamesMap_keys cats :
  NoDup (map fst (gamesMap cats)) /\
  (forall k, In k (map fst (gamesMap cats)) <-> In k (map c_game_id cats)) /\
  Forall (fromFirst cats) (gamesMap cats).
Proof.
  induction cats as [|cat cats IH] using rev_ind.
  - split; [constructor|]. split; [reflexivity|constructor].
  - destruct IH as (Hnd & Hk & Hf). rewrite gamesMap_snoc.
    assert (Hold : Forall (fromFirst (cats ++ [cat])) (gamesMap cats)).
    { eapply Forall_impl; [|exact Hf].
      intros e (pre & c & post & E & Hc & Hp & Hs).
      exists pre, c, (post ++ [cat]). rewrite E, <- app_assoc.
      repeat split; assumption. }
    unfold GameList.addCategory.
    destruct (GameList.Map_has (gamesMap cats) (c_game_id cat)) eqn:Eh; cbn.
    + apply Map_has_In in Eh. split; [exact Hnd|]. split; [|exact Hold].
      intros k. rewrite map_app, in_app_iff, Hk. cbn.
      split; [tauto|]. intros [H|[<-|[]]]; [exact H|]. now apply Hk.
    + assert (Hno : ~ In (c_game_id cat) (map fst (gamesMap cats))).
      { intros H. apply Map_has_In in H. congruence. }
      split; [|split].
      * rewrite map_app. cbn. apply NoDup_app; try assumption.
        -- constructor; [intros []|constructor].
        -- intros k Hin [E|[]]. subst k. contradiction.
      * intros k. rewrite !map_app, !in_app_iff, Hk. cbn. tauto.
      * apply Forall_app. split; [exact Hold|].
        constructor; [|constructor].
        exists cats, cat, []. cbn. repeat split.
        intros c Hc E. apply Hno. apply Hk. apply in_map_iff.
        now exists c.
Qed.

(** Every game id of the categories is listed exactly once, no other id
    is listed, and each game carries the cleaned name of the first
    category of its id: later categories of the same game never rename
    it. *)
Theorem each_game_listed_once :
  forall categories,
    let games := GameList.gamesOf cleanName localeCompare categories in
    NoDup (map g_id games) /\
    (forall k, In k (map g_id games) <-> In k (map c_game_id categories)) /\
    (forall g, In g games ->
       exists pre cat post,
         categories = pre ++ cat :: post /\
         c_game_id cat = g_id g /\
         (forall c, In c pre -> c_game_id c <> g_id g) /\
         g_name g = cleanName (c_name cat)).
Proof.
  intros categories games. subst games. unfold GameList.gamesOf.
  destruct (gamesMap_keys categories) as (Hnd & Hk & Hf).
  assert (Hid : map g_id (map snd (gamesMap categories)) =
                map fst (gamesMap categories)).
  { rewrite map_map. apply map_ext_in. intros e He.
    rewrite Forall_forall in Hf.
    destruct (Hf e He) as (_ & c & _ & _ & Hc & _ & Hs).
    rewrite Hs. cbn. exact Hc. }
  assert (Hp : forall cmp (l : list Game), Permutation (JS.sort cmp l) l).
  { intros cmp l. induction l as [|x l IH]; cbn; [reflexivity|].
    assert (Hi : forall s, Permutation (JS.sort_insert cmp x s) (x :: s)).
    { induction s as [|y s IHs]; cbn; [reflexivity|].
      destruct (cmp x y <=? 0); [reflexivity|].
      rewrite IHs. apply perm_swap. }
    rewrite Hi. now constructor. }
  match goal with |- context [JS.sort ?c ?l] => pose proof (Hp c l) as HP end.
  split; [|split].
  - eapply Permutation_NoDup.
    + apply Permutation_map. symmetry. exact HP.
    + rewrite Hid. exact Hnd.
  - intros k. rewrite <- Hk, <- Hid. split; intros H.
    + eapply Permutation_in; [apply Permutation_map; exact HP|exact H].
    + eapply Permutation_in;
        [apply Permutation_map; symmetry; exact HP|exact H].
  - intros g Hg. apply (Permutation_in g HP) in Hg.
    apply in_map_iff in Hg. destruct Hg as [e [Eg He]].
    rewrite Forall_forall in Hf.
    destruct (Hf e He) as (pre & c & post & E & Hc & Hpre & Hs).
    exists pre, c, post. subst g.
    assert (Ei : g_id (snd e) = fst e) by (rewrite Hs; exact Hc).
    rewrite Ei. split; [exact E|]. split; [exact Hc|].
    split; [exact Hpre|]. rewrite Hs. reflexivity.
Qed.

End GameListFacts.

Lemma each_game_listed_once_witness :
  exists pre cat post,
    sampleCategories = pre ++ cat :: post /\
    c_game_id cat = 1 /\
    (forall c, In c pre -> c_game_id c <> 1) /\
    "Magic Single Card"%string = c_name cat.
Proof.
  destruct (each_game_listed_once (fun n => n) (fun _ _ => 0)
              sampleCategories) as (_ & _ & H).
  apply (H {| g_id := 1; g_name := "Magic Single Card" |}).
  vm_compute. tauto.
Defined.

(** * Pagination *)

Section OrderPages.

Import Orders.

Variable fetch : Z -> Response.
Variable PAGE_LIMIT : option Z.

Lemma fullPagesFrom_tail p data pages :
  fullPagesFrom fetch PAGE_LIMIT p (data :: pages) ->
  fullPagesFrom fetch PAGE_LIMIT (p + 1) pages.
Proof.
  intros H i d Hi. specialize (H (S i) d Hi).
  rewrite Nat2Z.inj_succ in H.
  replace (p + 1 + Z.of_nat i) with (p + Z.succ (Z.of_nat i)) by lia.
  exact H.
Qed.

Lemma fetchPages_full pages : forall p acc fuel,
  fullPagesFrom fetch PAGE_LIMIT p pages ->
  fetchPages fetch PAGE_LIMIT (List.length pages + fuel) p acc =
  fetchPages fetch PAGE_LIMIT fuel (p + Z.of_nat (List.length pages))
    (acc ++ List.concat pages).
Proof.
  induction pages as [|data pages IH]; intros p acc fuel H.
  - cbn. now rewrite Z.add_0_r, app_nil_r.
  - destruct (H O data eq_refl) as (Hf & Hne & Hm).
    rewrite Z.add_0_r in Hf.
    cbn [List.length Nat.add fetchPages]. rewrite Hf.
    destruct (Z.eqb_spec (JS.alength data) 0) as [E|_];
      [apply alength_nil_iff in E; contradiction|].
    rewrite Hm, (IH (p + 1) (acc ++ data) fuel (fullPagesFrom_tail _ _ _ H)).
    cbn [List.concat]. rewrite app_assoc. f_equal. lia.
Qed.

(** Without a fresh cache, when the server answers full pages 1 to [k]
    and then a page that is short, empty or no array, the orders
    returned and written to the cache are those of the pages up to and
    including the short one, in order; [k + 1] requests are made.  When
    instead the page after the full ones fails, the process exits with
    status 1 and nothing is returned or written. *)
Theorem orders_are_all_pages_up_to_the_short_one :
  forall pages last extra,
    fullPagesFrom fetch PAGE_LIMIT 1 pages ->
    fetch (1 + Z.of_nat (List.length pages)) = last ->
    endsLoop PAGE_LIMIT last ->
    fetchAllOrders None fetch PAGE_LIMIT (List.length pages + S extra) =
    match last with
    | NotOk => Exit1
    | Json None => Fetched (List.concat pages) true
    | Json (Some d) => Fetched (List.concat pages ++ d) true
    end.
Proof.
  intros pages last extra Hp Hl He. unfold fetchAllOrders.
  rewrite (fetchPages_full pages 1 [] (S extra) Hp).
  cbn [fetchPages app]. rewrite Hl.
  destruct last as [|[d|]]; try reflexivity.
  destruct He as [->|Hm].
  - cbn. now rewrite app_nil_r.
  - rewrite Hm. destruct (Z.eqb_spec (JS.alength d) 0) as [E|_];
      [|reflexivity].
    apply alength_nil_iff in E. subst d. now rewrite app_nil_r.
Qed.

(** As long as every page comes back full, the loop goes on: it has no
    bound of its own on the number of requests. *)
Theorem full_pages_keep_the_loop_going :
  forall fuel p acc,
    (forall q, p <= q -> exists d,
        fetch q = Json (Some d) /\ d <> [] /\ hasMore PAGE_LIMIT d = true) ->
    fetchPages fetch PAGE_LIMIT fuel p acc = StillFetching.
Proof.
  induction fuel as [|fuel IH]; intros p acc H; [reflexivity|].
  destruct (H p (Z.le_refl p)) as (d & Hf & Hne & Hm).
  cbn [fetchPages]. rewrite Hf.
  destruct (Z.eqb_spec (JS.alength d) 0) as [E|_];
    [apply alength_nil_iff in E; contradiction|].
  rewrite Hm. apply IH. intros q Hq. apply H. lia.
Qed.

End OrderPages.

Lemma orders_are_all_pages_up_to_the_short_one_witness :
  let o := SalesSpec.orderOf [SalesSpec.cardA] in
  let fetch := fun p : Z =>
    if p =? 1 then Orders.Json (Some [o; o])
    else if p =? 2 then Orders.Json (Some [o])
    else Orders.NotOk in
  Orders.fetchAllOrders None fetch (Some 2) 5 = Orders.Fetched [o; o; o] true.
Proof.
  intros o fetch.
  apply (orders_are_all_pages_up_to_the_short_one fetch (Some 2)
           [[o; o]] (Orders.Json (Some [o])) 3).
  - intros [|[|i]] data Hi; try discriminate.
    injection Hi as <-. repeat split. discriminate.
  - reflexivity.
  - right. reflexivity.
Defined.

Lemma full_pages_keep_the_loop_going_witness :
  let o := SalesSpec.orderOf [SalesSpec.cardA] in
  Orders.fetchPages (fun _ => Orders.Json (Some [o])) (Some 1) 50 1 [] =
  Orders.StillFetching.
Proof.
  intros o.
  apply (full_pages_keep_the_loop_going (fun _ => Orders.Json (Some [o]))
           (Some 1) 50 1 []).
  intros q _. exists [o]. repeat split. discriminate.
Defined.

Section CardPages.

Import Cards.

Variable fetch : Z -> Response.

Lemma morePagesFrom_tail p data pages :
  morePagesFrom fetch p (data :: pages) -> morePagesFrom fetch (p + 1) pages.
Proof.
  intros H i d Hi. specialize (H (S i) d Hi).
  rewrite Nat2Z.inj_succ in H.
  replace (p + 1 + Z.of_nat i) with (p + Z.succ (Z.of_nat i)) by lia.
  exact H.
Qed.

Lemma fetchCards_more pages : forall p acc fuel,
  morePagesFrom fetch p pages ->
  fetchPages fetch (List.length pages + fuel) p acc =
  fetchPages fetch fuel (p + Z.of_nat (List.length pages))
    (acc ++ List.concat pages).
Proof.
  induction pages as [|data pages IH]; intros p acc fuel H.
  - cbn. now rewrite Z.add_0_r, app_nil_r.
  - pose proof (H O data eq_refl) as Hf. rewrite Z.add_0_r in Hf.
    cbn [List.length Nat.add fetchPages]. rewrite Hf.
    rewrite (IH (p + 1) (acc ++ data) fuel (morePagesFrom_tail _ _ _ H)).
    cbn [List.concat]. rewrite app_assoc. f_equal. lia.
Qed.

(** The cards returned are those of all pages up to and including the
    first one that does not announce more, in order; a page without
    data counts as empty and does not end the loop by itself.  When a
    request fails or answers an error object, the error is thrown and
    the cards of the earlier pages are lost. *)
Theorem cards_are_all_pages_up_to_the_last_one :
  forall pages extra,
    morePagesFrom fetch 1 pages ->
    (forall data,
       fetch (1 + Z.of_nat (List.length pages)) = Page data false ->
       fetchAllCards fetch (List.length pages + S extra) =
       Fetched (List.concat pages
                  ++ match data with Some d => d | None => [] end)) /\
    (fetch (1 + Z.of_nat (List.length pages)) = Rejected \/
     fetch (1 + Z.of_nat (List.length pages)) = ErrorObject ->
     fetchAllCards fetch (List.length pages + S extra) = Thrown).
Proof.
  intros pages extra Hp. unfold fetchAllCards.
  rewrite (fetchCards_more pages 1 [] (S extra) Hp).
  cbn [fetchPages app]. split.
  - intros data ->. reflexivity.
  - intros [-> | ->]; reflexivity.
Qed.

End CardPages.

Lemma cards_are_all_pages_up_to_the_last_one_witness :
  let c := {| Cards.name := "Opt"; Cards.set := "dom";
              Cards.collector_number := "60" |} in
  let fetch := fun p : Z =>
    if p =? 1 then Cards.Page (Some [c; c]) true
    else if p =? 2 then Cards.Page None false
    else Cards.Rejected in
  Cards.fetchAllCards fetch 4 = Cards.Fetched [c; c] /\
  Cards.fetchAllCards (fun p => if p =? 1 then fetch 1 else Cards.ErrorObject)
    4 = Cards.Thrown.
Proof.
  intros c fetch. split.
  - destruct (cards_are_all_pages_up_to_the_last_one fetch [[c; c]] 2)
      as [H _].
    + intros [|[|i]] data Hi; try discriminate.
      injection Hi as <-. reflexivity.
    + exact (H None eq_refl).
  - destruct (cards_are_all_pages_up_to_the_last_one
                (fun p => if p =? 1 then fetch 1 else Cards.ErrorObject)
                [[c; c]] 2) as [_ H].
    + intros [|[|i]] data Hi; try discriminate.
      injection Hi as <-. reflexivity.
    + apply H. right. reflexivity.
Defined.

(** * The command line of the Scryfall script *)

Section ArgsFacts.

Import Args.

Lemma find_snoc {A} (p : A -> bool) l x :
  find p (l ++ [x]) =
  match find p l with
  | Some y => Some y
  | None => if p x then Some x else None
  end.
Proof.
  induction l as [|y l IH]; cbn; [reflexivity|].
  destruct (p y); [reflexivity|exact IH].
Qed.

Lemma lastWith_cons flag a args :
  lastWith flag (a :: args) =
  match lastWith flag args with
  | Some y => Some y
  | None => if JS.startsWith a flag then Some a else None
  end.
Proof.
  unfold lastWith. cbn [rev].
  exact (find_snoc (fun x => JS.startsWith x flag) (rev args) a).
Qed.

Lemma prefix_same_length p q : forall a,
  String.length p = String.length q ->
  String.prefix p a = true -> String.prefix q a = true -> p = q.
Proof.
  revert q. induction p as [|c p IH]; intros [|d q] a Hl Hp Hq;
    try discriminate; [reflexivity|].
  destruct a as [|e a]; [discriminate|]. cbn in Hp, Hq.
  destruct (ascii_dec c e); [|discriminate].
  destruct (ascii_dec d e); [|discriminate]. subst.
  f_equal. injection Hl as Hl. eapply IH; eassumption.
Qed.

Lemma prefix_trans p q : forall a,
  String.prefix p q = true -> String.prefix q a = true ->
  String.prefix p a = true.
Proof.
  revert q. induction p as [|c p IH]; intros q a Hp Hq; [now destruct a|].
  destruct q as [|d q]; [discriminate|].
  destruct a as [|e a]; [discriminate|]. cbn in *.
  destruct (ascii_dec c d); [|discriminate].
  destruct (ascii_dec d e); [|discriminate]. subst.
  destruct (ascii_dec e e); [|congruence]. eapply IH; eassumption.
Qed.

(** An argument begins with at most one of the four option names. *)
Lemma flags_exclusive a f g :
  In f ["--unique="; "--output="; "--format="]%string ->
  In g ["--unique="; "--output="; "--format="]%string ->
  JS.startsWith a f = true -> JS.startsWith a g = true -> f = g.
Proof.
  unfold JS.startsWith. intros Hf Hg Ha Hb.
  apply (prefix_same_length f g a); try assumption.
  cbn in Hf, Hg.
  destruct Hf as [<-|[<-|[<-|[]]]], Hg as [<-|[<-|[<-|[]]]]; reflexivity.
Qed.

Lemma flag_is_dashed a f :
  In f ["--unique="; "--output="; "--format="; "--delay="]%string ->
  JS.startsWith a f = true -> JS.startsWith a "--" = true.
Proof.
  unfold JS.startsWith. intros Hf Ha.
  apply (prefix_trans "--" f a); [|exact Ha].
  cbn in Hf. destruct Hf as [<-|[<-|[<-|[<-|[]]]]]; reflexivity.
Qed.

Lemma delay_not_other a f :
  In f ["--unique="; "--output="; "--format="]%string ->
  JS.startsWith a f = true -> JS.startsWith a "--delay=" = false.
Proof.
  unfold JS.startsWith. intros Hf Ha.
  destruct (String.prefix "--delay=" a) eqn:Hd; [|reflexivity].
  exfalso.
  assert (H3 : String.prefix "--d" a = true)
    by (apply (prefix_trans "--d" "--delay=" a); [reflexivity|exact Hd]).
  assert (Hx : exists x, String.prefix x a = true /\ String.length x = 3%nat
                         /\ x <> "--d"%string).
  { cbn in Hf. destruct Hf as [<-|[<-|[<-|[]]]].
    - exists "--u"%string. repeat split; [|discriminate].
      apply (prefix_trans "--u" "--unique=" a); [reflexivity|exact Ha].
    - exists "--o"%string. repeat split; [|discriminate].
      apply (prefix_trans "--o" "--output=" a); [reflexivity|exact Ha].
    - exists "--f"%string. repeat split; [|discriminate].
      apply (prefix_trans "--f" "--format=" a); [reflexivity|exact Ha]. }
  destruct Hx as (x & Hp & Hl & Hne). apply Hne.
  apply (prefix_same_length x "--d" a); assumption.
Qed.

(** *** One argument *)

Lemma unique_step o a :
  unique (step o a) =
  if JS.startsWith a "--unique=" then valueOf a else unique o.
Proof.
  unfold step.
  repeat match goal with
         | |- context [if ?c then _ else _] => destruct c eqn:?
         end; try reflexivity; discriminate.
Qed.

Ltac known_flag :=
  cbn; auto 6.

Lemma output_step o a :
  output (step o a) =
  if JS.startsWith a "--output=" then valueOf a else output o.
Proof.
  unfold step.
  destruct (JS.startsWith a "--unique=") eqn:U.
  - destruct (JS.startsWith a "--output=") eqn:O; [|reflexivity].
    assert (E : "--unique="%string = "--output="%string)
      by (apply (flags_exclusive a); [known_flag|known_flag|exact U|exact O]).
    discriminate.
  - repeat match goal with
           | |- context [if ?c then _ else _] => destruct c eqn:?
           end; try reflexivity; discriminate.
Qed.

Lemma format_step o a :
  format (step o a) =
  if JS.startsWith a "--format=" then valueOf a else format o.
Proof.
  unfold step.
  destruct (JS.startsWith a "--unique=") eqn:U.
  { destruct (JS.startsWith a "--format=") eqn:F; [|reflexivity].
    assert (E : "--unique="%string = "--format="%string)
      by (apply (flags_exclusive a); [known_flag|known_flag|exact U|exact F]).
    discriminate. }
  destruct (JS.startsWith a "--output=") eqn:O.
  { destruct (JS.startsWith a "--format=") eqn:F; [|reflexivity].
    assert (E : "--output="%string = "--format="%string)
      by (apply (flags_exclusive a); [known_flag|known_flag|exact O|exact F]).
    discriminate. }
  repeat match goal with
         | |- context [if ?c then _ else _] => destruct c eqn:?
         end; try reflexivity; discriminate.
Qed.

Lemma delay_step o a :
  delay (step o a) =
  if JS.startsWith a "--delay="
  then match valueOf a with Some v => parseInt10 v | None => None end
  else delay o.
Proof.
  unfold step.
  destruct (JS.startsWith a "--unique=") eqn:U;
    [rewrite (delay_not_other a "--unique=");
       [reflexivity|known_flag|exact U]|].
  destruct (JS.startsWith a "--output=") eqn:O;
    [rewrite (delay_not_other a "--output=");
       [reflexivity|known_flag|exact O]|].
  destruct (JS.startsWith a "--format=") eqn:F;
    [rewrite (delay_not_other a "--format=");
       [reflexivity|known_flag|exact F]|].
  repeat match goal with
         | |- context [if ?c then _ else _] => destruct c eqn:?
         end; try reflexivity; discriminate.
Qed.

Lemma json_step o a :
  json (step o a) = (json o || (a =? "--json")%string)%bool.
Proof.
  unfold step.
  destruct (String.eqb_spec a "--json") as [->|_].
  - cbn. now rewrite orb_true_r.
  - rewrite orb_false_r.
    repeat match goal with
           | |- context [if ?c then _ else _] => destruct c eqn:?
           end; reflexivity.
Qed.

Lemma queryGiven_step o a :
  queryGiven (step o a) =
  match queryGiven o with
  | Some q => Some q
  | None => if positional a then Some a else None
  end.
Proof.
  assert (Hd : forall f,
             In f ["--unique="; "--output="; "--format="; "--delay="]%string ->
             JS.startsWith a f = true -> positional a = false).
  { intros f Hf Ha. unfold positional.
    now rewrite (flag_is_dashed a f Hf Ha). }
  assert (Hsame : forall o', query o' = query o -> positional a = false ->
            queryGiven o' =
            match queryGiven o with
            | Some q => Some q
            | None => if positional a then Some a else None
            end).
  { intros o' Hq Hp. unfold queryGiven. rewrite Hq, Hp.
    destruct (noQuery (query o)); [reflexivity|].
    now destruct (query o). }
  unfold step.
  destruct (JS.startsWith a "--unique=") eqn:U;
    [apply Hsame; [reflexivity|apply (Hd "--unique="%string);
                                [known_flag|exact U]]|].
  destruct (JS.startsWith a "--output=") eqn:O;
    [apply Hsame; [reflexivity|apply (Hd "--output="%string);
                                [known_flag|exact O]]|].
  destruct (JS.startsWith a "--format=") eqn:F;
    [apply Hsame; [reflexivity|apply (Hd "--format="%string);
                                [known_flag|exact F]]|].
  destruct (JS.startsWith a "--delay=") eqn:D;
    [apply Hsame; [reflexivity|apply (Hd "--delay="%string);
                                [known_flag|exact D]]|].
  destruct (String.eqb_spec a "--json") as [->|_];
    [apply Hsame; reflexivity|].
  unfold positional, queryGiven.
  destruct (JS.startsWith a "--"); cbn [negb andb].
  - destruct (noQuery (query o)); [reflexivity|]. now destruct (query o).
  - destruct (noQuery (query o)) eqn:Q; cbn [query];
      [|rewrite Q; now destruct (query o)].
    destruct a; reflexivity.
Qed.

(** *** All arguments *)

Lemma field_fold {T} (get : Options -> option T) flag (f : string -> option T) :
  (forall o a, get (step o a) =
               if JS.startsWith a flag then f a else get o) ->
  forall args o,
    get (fold_left step args o) =
    match lastWith flag args with
    | Some a => f a
    | None => get o
    end.
Proof.
  intros Hs. induction args as [|a args IH]; intros o; [reflexivity|].
  cbn [fold_left]. rewrite IH, lastWith_cons, Hs.
  destruct (lastWith flag args); [reflexivity|].
  now destruct (JS.startsWith a flag).
Qed.

Lemma json_fold args : forall o,
  json (fold_left step args o) =
  (json o || existsb (String.eqb "--json") args)%bool.
Proof.
  induction args as [|a args IH]; intros o; cbn [fold_left existsb].
  - now rewrite orb_false_r.
  - rewrite IH, json_step, (String.eqb_sym a). now rewrite orb_assoc.
Qed.

Lemma queryGiven_fold args : forall o,
  queryGiven (fold_left step args o) =
  match queryGiven o with
  | Some q => Some q
  | None => find positional args
  end.
Proof.
  induction args as [|a args IH]; intros o; cbn [fold_left find].
  - now destruct (queryGiven o).
  - rewrite IH, queryGiven_step.
    destruct (queryGiven o); [reflexivity|].
    now destruct (positional a).
Qed.

(** What [parseArgs] returns, field by field.  Of several arguments for
    the same option the last one counts, whatever stands between them;
    [--json] anywhere switches JSON output on; the query is the first
    argument that is not empty and does not begin with two dashes, later
    ones are dropped; every other argument is ignored without notice. *)
Theorem parseArgs_field_by_field :
  forall args,
    let o := parseArgs args in
    unique o = match lastWith "--unique=" args with
               | Some a => valueOf a
               | None => Some "art"%string
               end /\
    output o = match lastWith "--output=" args with
               | Some a => valueOf a
               | None => None
               end /\
    format o = match lastWith "--format=" args with
               | Some a => valueOf a
               | None => Some "moxfield"%string
               end /\
    delay o = match lastWith "--delay=" args with
              | Some a => match valueOf a with
                          | Some v => parseInt10 v
                          | None => None
                          end
              | None => Some 100
              end /\
    json o = existsb (String.eqb "--json") args /\
    queryGiven o = find positional args.
Proof.
  intros args o. subst o. unfold parseArgs.
  rewrite (field_fold unique "--unique=" valueOf unique_step).
  rewrite (field_fold output "--output=" valueOf output_step).
  rewrite (field_fold format "--format=" valueOf format_step).
  rewrite (field_fold delay "--delay="
             (fun a => match valueOf a with
                       | Some v => parseInt10 v
                       | None => None
                       end) delay_step).
  rewrite json_fold, queryGiven_fold. repeat split.
Qed.

(** *** The value of an option *)

Lemma split_no_sep s : noEquals s = true -> split "=" s = [s].
Proof.
  induction s as [|c s IH]; [reflexivity|]. cbn [noEquals split].
  intros H. apply andb_prop in H. destruct H as [Hc Hs].
  destruct (Ascii.eqb c "="); [discriminate|]. now rewrite (IH Hs).
Qed.

Lemma split_at_sep a b :
  noEquals a = true ->
  split "=" (a ++ String "=" b) = a :: split "=" b.
Proof.
  induction a as [|c a IH]; [reflexivity|]. cbn [noEquals split append].
  intros H. apply andb_prop in H. destruct H as [Hc Hs].
  destruct (Ascii.eqb c "="); [discriminate|]. now rewrite (IH Hs).
Qed.

(** The value of an option ends at the next equals sign: what follows a
    second [=] in the argument is dropped. *)
Theorem option_value_ends_at_equals :
  forall name v w,
    noEquals name = true -> noEquals v = true ->
    valueOf (name ++ "=" ++ v) = Some v /\
    valueOf (name ++ "=" ++ v ++ "=" ++ w) = Some v.
Proof.
  intros name v w Hn Hv. unfold valueOf.
  change ("=" ++ v)%string with (String "=" v).
  change ("=" ++ (v ++ "=" ++ w))%string
    with (String "=" (v ++ String "=" w)).
  rewrite !split_at_sep by assumption.
  rewrite split_no_sep by assumption. split; reflexivity.
Qed.

Lemma option_value_ends_at_equals_witness :
  valueOf "--output=cards.txt" = Some "cards.txt"%string /\
  valueOf "--output=a=b.txt" = Some "a"%string.
Proof.
  destruct (option_value_ends_at_equals "--output" "cards.txt" ""
              eq_refl eq_refl) as [H1 _].
  destruct (option_value_ends_at_equals "--output" "a" "b.txt"
              eq_refl eq_refl) as [_ H2].
  split; [exact H1|exact H2].
Defined.

End ArgsFacts.
